(** * sequelize-migrations: the migration engine of [migration.js]

    The module keeps two bookkeeping relations ([Migrations] and
    [MigrationStatements]) and runs a keyed list of SQL statements once.
    All of its work happens in callbacks of database requests, so the
    embedding has three layers:

    - the data of the module: rows, errors, the console, the JS arrays, and
      the behaviour of the database and its driver as a parameter ([Driver]);
    - a small language of callback programs ([Prog]) with a semantics for
      one synchronous turn ([turn]), for the answer to one pending request
      ([effect], [handler]), for arbitrary interleavings ([steps]) and for a
      call running alone ([run]);
    - the functions of [migration.js], written in that language as they are
      in the source: [isEmpty], [normalize], [executeSql], [logError],
      [runIfNotExists], [createPendingStatements], [runPendingStatements],
      [bootstrap], [runOnce], [runAllOnce].

    The definitions come first; the lemmas follow: the semantics, the two
    phases of a call (creation and execution of the Statement rows), the
    anatomy of a [runOnce] call, and the properties of the module. *)

From Stdlib Require Import ZArith String List Bool Lia.
From stdpp Require Import base option list gmap strings.
Import ListNotations.
Local Open Scope string_scope.
Local Open Scope list_scope.

(* ------------------------------------------------------------------ *)
(** ** Data *)

(** A JS value that is a string, or [null]/[undefined] ([None]). *)
Definition JsStr := option string.

(** A row of [Migrations]. [migration_key] is declared [allowNull: false],
    so a stored key is a string. *)
Record MigrationRow := {
  mig_id : nat;
  migration_key : string
}.

(** The error object of the database driver; [number] is its numeric code. *)
Record SqlError := {
  number : option Z;
  message : string
}.

(** A row of [MigrationStatements] (and the JS object that mirrors it). *)
Record StatementRow := {
  stmt_id : nat;
  migration_id : nat;
  sql_statement : string;
  status : string;
  error_code : option Z;
  error_info : option SqlError
}.

(** What the object-relational layer reports when a request fails. *)
Inductive DbError :=
| NotNullViolation (column : string)
| UniqueViolation (column : string)
| DriverFailure (e : SqlError).

Inductive Outcome (A : Type) :=
| Succeeded (a : A)
| Failed (e : DbError).
Arguments Succeeded {A} a.
Arguments Failed {A} e.

(** Result of [sequelize.query]: the rows (possibly [null]) or an error. *)
Inductive QueryResult :=
| Rows (rows : option (list string))
| QueryFailed (e : SqlError).

(** The requests the database has answered, oldest first. *)
Inductive Event :=
| EvFind (key : JsStr) (res : Outcome (option MigrationRow))
| EvMigrationCreate (key : JsStr) (res : Outcome MigrationRow)
| EvStatementCreate (mid : nat) (sql : JsStr) (res : Outcome StatementRow)
| EvSave (row : StatementRow) (res : Outcome unit)
| EvQuery (sql : string) (res : QueryResult)
| EvSync (table : string) (res : Outcome unit).

(** One argument of a [console.log] call. *)
Inductive LogArg :=
| ArgText (s : string)
| ArgStr (s : JsStr)
| ArgNumber (n : option Z)
| ArgArray (a : list JsStr)
| ArgDbError (e : DbError)
| ArgSqlError (e : SqlError)
| ArgConcat (text1 : string) (n : option Z) (text2 : string) (e : SqlError).
    (* the string [text1 + n + text2 + e] *)

(** JS arrays live in a heap and are passed by reference. *)
Inductive JsArray :=
| StrArray (xs : list JsStr)
| RowArray (rs : list StatementRow).

Record World := {
  tables : list string;            (* relations that exist *)
  migrations : list MigrationRow;  (* Migrations, in insertion order *)
  statements : list StatementRow;  (* MigrationStatements, in insertion order *)
  console : list (list LogArg);    (* blocks written by logError *)
  trace : list Event;              (* answered requests *)
  heap : gmap nat JsArray          (* arrays of the JS process *)
}.

Definition set_tables (f : list string -> list string) (w : World) : World :=
  {| tables := f (tables w); migrations := migrations w; statements := statements w;
     console := console w; trace := trace w; heap := heap w |}.
Definition set_migrations (f : list MigrationRow -> list MigrationRow) (w : World) : World :=
  {| tables := tables w; migrations := f (migrations w); statements := statements w;
     console := console w; trace := trace w; heap := heap w |}.
Definition set_statements (f : list StatementRow -> list StatementRow) (w : World) : World :=
  {| tables := tables w; migrations := migrations w; statements := f (statements w);
     console := console w; trace := trace w; heap := heap w |}.
Definition set_console (f : list (list LogArg) -> list (list LogArg)) (w : World) : World :=
  {| tables := tables w; migrations := migrations w; statements := statements w;
     console := f (console w); trace := trace w; heap := heap w |}.
Definition set_trace (f : list Event -> list Event) (w : World) : World :=
  {| tables := tables w; migrations := migrations w; statements := statements w;
     console := console w; trace := f (trace w); heap := heap w |}.
Definition set_heap (f : gmap nat JsArray -> gmap nat JsArray) (w : World) : World :=
  {| tables := tables w; migrations := migrations w; statements := statements w;
     console := console w; trace := trace w; heap := f (heap w) |}.

Definition record (e : Event) : World -> World := set_trace (fun t => t ++ [e]).
Definition print (args : list LogArg) : World -> World := set_console (fun c => c ++ [args]).

(** The database and its driver are collaborators of the module: what they
    answer beyond the declared constraints is a parameter.  Every function
    sees the whole world, trace included, so an answer may depend on all
    that happened before. *)
Record Driver := {
  find_fault : World -> JsStr -> option DbError;
  migration_fault : World -> string -> option DbError;
  statement_fault : World -> nat -> string -> option DbError;
  save_fault : World -> StatementRow -> option DbError;
  query_result : World -> string -> QueryResult;
  sync_fault : World -> string -> option DbError
}.

(* ------------------------------------------------------------------ *)
(** ** Callback programs *)

(** [Prog] is the code of one synchronous turn: console output, array
    operations and requests handed to the database ([Issue]); a request
    carries the continuations registered with [.success] and [.error]. *)
Inductive Prog : Type :=
| Skip
| ConsoleLog (args : list LogArg) (rest : Prog)
| ArrayLiteral (xs : list JsStr) (k : nat -> Prog)
| ArraySlice (l : nat) (k : nat -> Prog)
| ArrayRead (l : nat) (k : list JsStr -> Prog)
| RowsLiteral (k : nat -> Prog)
| RowsPush (l : nat) (r : StatementRow) (rest : Prog)
| RowsRead (l : nat) (k : list StatementRow -> Prog)
| Issue (r : Request) (rest : Prog)
with Request : Type :=
| MigrationFind (key : JsStr)
    (success : option MigrationRow -> Prog) (error : DbError -> Prog)
| MigrationCreate (key : JsStr)
    (success : MigrationRow -> Prog) (error : DbError -> Prog)
| StatementCreate (mid : nat) (sql : JsStr)
    (success : StatementRow -> Prog) (error : DbError -> Prog)
| StatementSave (row : StatementRow)
    (success : Prog) (error : DbError -> Prog)
| Query (sql : string)
    (success : option (list string) -> Prog) (error : SqlError -> Prog)
| Sync (table : string)
    (success : Prog) (error : DbError -> Prog).

(** An event emitter on which no listener was registered. *)
Definition unhandled {A : Type} : A -> Prog := fun _ => Skip.

(* ------------------------------------------------------------------ *)
(** ** The database: what each request is answered *)

(** [Migration.find({where: {migration_key: key}})]: the first row with that
    key; no stored key is [null], so a [null] key matches nothing. *)
Definition find_migration (key : JsStr) (ms : list MigrationRow) : option MigrationRow :=
  match key with
  | None => None
  | Some k => List.find (fun m => String.eqb (migration_key m) k) ms
  end.

(** The surrogate key given to a new row. *)
Definition next_id (ids : list nat) : nat := S (max_list ids).

Definition answer_find (env : Driver) (w : World) (key : JsStr)
  : Outcome (option MigrationRow) :=
  match find_fault env w key with
  | Some e => Failed e
  | None => Succeeded (find_migration key (migrations w))
  end.

(** [migration_key: {allowNull: false, unique: true}]. *)
Definition answer_migration_create (env : Driver) (w : World) (key : JsStr)
  : Outcome MigrationRow :=
  match key with
  | None => Failed (NotNullViolation "migration_key")
  | Some k =>
      if existsb (fun m => String.eqb (migration_key m) k) (migrations w)
      then Failed (UniqueViolation "migration_key")
      else match migration_fault env w k with
           | Some e => Failed e
           | None => Succeeded {| mig_id := next_id (map mig_id (migrations w));
                                  migration_key := k |}
           end
  end.

(** [sql_statement: {allowNull: false}], [status: {defaultValue: "pending"}]. *)
Definition answer_statement_create (env : Driver) (w : World) (mid : nat) (sql : JsStr)
  : Outcome StatementRow :=
  match sql with
  | None => Failed (NotNullViolation "sql_statement")
  | Some s =>
      match statement_fault env w mid s with
      | Some e => Failed e
      | None => Succeeded {| stmt_id := next_id (map stmt_id (statements w));
                             migration_id := mid;
                             sql_statement := s;
                             status := "pending";
                             error_code := None;
                             error_info := None |}
      end
  end.

Definition answer_save (env : Driver) (w : World) (row : StatementRow) : Outcome unit :=
  match save_fault env w row with
  | Some e => Failed e
  | None => Succeeded tt
  end.

Definition answer_sync (env : Driver) (w : World) (table : string) : Outcome unit :=
  match sync_fault env w table with
  | Some e => Failed e
  | None => Succeeded tt
  end.

(** [statement.save()] rewrites the row that has the statement's id. *)
Definition update_row (row : StatementRow) (rows : list StatementRow) : list StatementRow :=
  map (fun r => if Nat.eqb (stmt_id r) (stmt_id row) then row else r) rows.

(** [sync()] creates the relation when it is absent. *)
Definition create_if_absent (table : string) (ts : list string) : list string :=
  if existsb (String.eqb table) ts then ts else ts ++ [table].

(** The world once the database has answered request [r]. *)
Definition effect (env : Driver) (r : Request) (w : World) : World :=
  match r with
  | MigrationFind key _ _ =>
      record (EvFind key (answer_find env w key)) w
  | MigrationCreate key _ _ =>
      let res := answer_migration_create env w key in
      record (EvMigrationCreate key res)
        match res with
        | Succeeded m => set_migrations (fun ms => ms ++ [m]) w
        | Failed _ => w
        end
  | StatementCreate mid sql _ _ =>
      let res := answer_statement_create env w mid sql in
      record (EvStatementCreate mid sql res)
        match res with
        | Succeeded s => set_statements (fun ss => ss ++ [s]) w
        | Failed _ => w
        end
  | StatementSave row _ _ =>
      let res := answer_save env w row in
      record (EvSave row res)
        match res with
        | Succeeded _ => set_statements (update_row row) w
        | Failed _ => w
        end
  | Query sql _ _ =>
      record (EvQuery sql (query_result env w sql)) w
  | Sync table _ _ =>
      let res := answer_sync env w table in
      record (EvSync table res)
        match res with
        | Succeeded _ => set_tables (create_if_absent table) w
        | Failed _ => w
        end
  end.

(** The continuation that the answer to [r] sets off. *)
Definition handler (env : Driver) (r : Request) (w : World) : Prog :=
  match r with
  | MigrationFind key success error =>
      match answer_find env w key with
      | Succeeded m => success m
      | Failed e => error e
      end
  | MigrationCreate key success error =>
      match answer_migration_create env w key with
      | Succeeded m => success m
      | Failed e => error e
      end
  | StatementCreate mid sql success error =>
      match answer_statement_create env w mid sql with
      | Succeeded s => success s
      | Failed e => error e
      end
  | StatementSave row success error =>
      match answer_save env w row with
      | Succeeded _ => success
      | Failed e => error e
      end
  | Query sql success error =>
      match query_result env w sql with
      | Rows rows => success rows
      | QueryFailed e => error e
      end
  | Sync table success error =>
      match answer_sync env w table with
      | Succeeded _ => success
      | Failed e => error e
      end
  end.

(* ------------------------------------------------------------------ *)
(** ** The JS heap *)

Definition alloc (a : JsArray) : World -> World :=
  set_heap (fun h => <[fresh (dom h) := a]> h).

Definition fresh_loc (w : World) : nat := fresh (dom (heap w)).

Definition read_strings (l : nat) (w : World) : list JsStr :=
  match heap w !! l with
  | Some (StrArray xs) => xs
  | _ => []
  end.

Definition read_rows (l : nat) (w : World) : list StatementRow :=
  match heap w !! l with
  | Some (RowArray rs) => rs
  | _ => []
  end.

(** [arr.slice()]: a new array with the elements of [arr]. *)
Definition slice (l : nat) (w : World) : JsArray :=
  match heap w !! l with
  | Some a => a
  | None => StrArray []
  end.

(** [arr.push(r)]. *)
Definition push (l : nat) (r : StatementRow) : World -> World :=
  set_heap (fun h =>
    match h !! l with
    | Some (RowArray rs) => <[l := RowArray (rs ++ [r])]> h
    | _ => h
    end).

(* ------------------------------------------------------------------ *)
(** ** Semantics *)

(** One synchronous turn: the code runs to its end; the requests it issues
    are left pending, in the order they were issued. *)
Fixpoint turn (p : Prog) (w : World) : World * list Request :=
  match p with
  | Skip => (w, [])
  | ConsoleLog args rest => turn rest (print args w)
  | ArrayLiteral xs k => turn (k (fresh_loc w)) (alloc (StrArray xs) w)
  | ArraySlice l k => turn (k (fresh_loc w)) (alloc (slice l w) w)
  | ArrayRead l k => turn (k (read_strings l w)) w
  | RowsLiteral k => turn (k (fresh_loc w)) (alloc (RowArray []) w)
  | RowsPush l r rest => turn rest (push l r w)
  | RowsRead l k => turn (k (read_rows l w)) w
  | Issue r rest => let '(w', pending) := turn rest w in (w', r :: pending)
  end.

(** A configuration: the world and the requests not yet answered. *)
Definition Config : Type := World * list Request.

(** The [i]-th pending request is answered and its continuation runs as one
    turn; the requests of that turn queue up behind the others. *)
Definition step (env : Driver) (i : nat) (c : Config) : option Config :=
  let '(w, pending) := c in
  match pending !! i with
  | None => None
  | Some r =>
      let '(w', new) := turn (handler env r w) (effect env r w) in
      Some (w', delete i pending ++ new)
  end.

(** A schedule names, answer after answer, which pending request is next. *)
Fixpoint steps (env : Driver) (schedule : list nat) (c : Config) : option Config :=
  match schedule with
  | [] => Some c
  | i :: schedule' =>
      match step env i c with
      | None => None
      | Some c' => steps env schedule' c'
      end
  end.

(** A program running alone, to the end: the rest of the turn first, then
    the answer to the request and all that follows from it.  For the code of
    [runOnce], where every request is the last thing its turn does, this is
    the only way the program can run (see [run_only_outcome]). *)
Fixpoint run (env : Driver) (p : Prog) (w : World) : World :=
  match p with
  | Skip => w
  | ConsoleLog args rest => run env rest (print args w)
  | ArrayLiteral xs k => run env (k (fresh_loc w)) (alloc (StrArray xs) w)
  | ArraySlice l k => run env (k (fresh_loc w)) (alloc (slice l w) w)
  | ArrayRead l k => run env (k (read_strings l w)) w
  | RowsLiteral k => run env (k (fresh_loc w)) (alloc (RowArray []) w)
  | RowsPush l r rest => run env rest (push l r w)
  | RowsRead l k => run env (k (read_rows l w)) w
  | Issue r rest =>
      let w' := run env rest w in
      run env (handler env r w') (effect env r w')
  end.

(* ------------------------------------------------------------------ *)
(** ** async.forEachSeries *)

(** The iterator is applied to the items one after the other; each
    application is handed the callback that starts the next one.  A callback
    called with an error ends the series: the final callback gets the error
    and no further item is visited.  After the last item (or at once, for an
    empty array) the final callback is called without an error. *)
Fixpoint series {A E : Type} (items : list A)
    (iterator : A -> (option E -> Prog) -> Prog)
    (callback : option E -> Prog) : Prog :=
  match items with
  | [] => callback None
  | item :: items' =>
      iterator item (fun err =>
        match err with
        | Some e => callback (Some e)
        | None => series items' iterator callback
        end)
  end.

(** [forEachSeries(arr, iterator, callback)] on the array at [arr]; [read]
    is the heap access for the array's element type.  The arrays the module
    iterates over are its own and are not written during the iteration. *)
Definition forEachSeries {A E : Type} (read : nat -> (list A -> Prog) -> Prog)
    (arr : nat) (iterator : A -> (option E -> Prog) -> Prog)
    (callback : option E -> Prog) : Prog :=
  read arr (fun items => series items iterator callback).

(* ------------------------------------------------------------------ *)
(** ** migration.js *)

(** [!str || 0 === str.length] *)
Definition isEmpty (str : JsStr) : bool :=
  match str with
  | None => true
  | Some s => String.eqb s "" || Nat.eqb 0 (String.length s)
  end.

Definition normalize (str : JsStr) : JsStr :=
  if isEmpty str then None else str.

Definition executeSql (sql : string)
    (success : option (list string) -> Prog) (error : SqlError -> Prog) : Request :=
  Query sql success error.

Definition banner : string :=
  "=================== !!!Migration ERROR!!! ===================".

(** [console.log(banner, arguments, ...)]: one block on the console. *)
Definition logError (arguments : list LogArg) (rest : Prog) : Prog :=
  ConsoleLog (ArgText banner :: arguments) rest.

Definition runIfNotExists (key : JsStr) (callback : Prog) : Prog :=
  Issue (MigrationFind (normalize key)
           (fun migration =>
              match migration with
              | None => callback
              | Some _ => Skip
              end)
           unhandled)
        Skip.

(** The function [iterator] of [createPendingStatements]; [migration] and
    [statements] are the variables it closes over.  The error [e] of the
    database is an object, so async takes [iteratorCallback(e)] as a
    failure. *)
Definition iterator (migration : MigrationRow) (statements : nat)
    (sql : JsStr) (iteratorCallback : option DbError -> Prog) : Prog :=
  Issue (StatementCreate (mig_id migration) (normalize sql)
           (fun migrationStatement =>
              RowsPush statements migrationStatement (iteratorCallback None))
           (fun e => iteratorCallback (Some e)))
        Skip.

Definition createPendingStatements (migration : MigrationRow) (sqlStatements : nat)
    (callback : nat -> Prog) : Prog :=
  RowsLiteral (fun statements =>
    forEachSeries ArrayRead sqlStatements (iterator migration statements)
      (fun _ => callback statements)).

Definition succeeded (statement : StatementRow) : StatementRow :=
  {| stmt_id := stmt_id statement; migration_id := migration_id statement;
     sql_statement := sql_statement statement;
     status := "success";
     error_code := error_code statement; error_info := error_info statement |}.

Definition failed (error : SqlError) (statement : StatementRow) : StatementRow :=
  {| stmt_id := stmt_id statement; migration_id := migration_id statement;
     sql_statement := sql_statement statement;
     status := "failure";
     error_code := number error; error_info := Some error |}.

(** The function [runPendingStatements] applies to each statement.  The
    assignments to [statement.status], [error_code] and [error_info] are the
    row [succeeded statement] or [failed error statement] that [save()]
    writes. *)
Definition runPendingStatement (statement : StatementRow)
    (callback : option SqlError -> Prog) : Prog :=
  Issue (executeSql (sql_statement statement)
           (fun _ =>
              Issue (StatementSave (succeeded statement) (callback None) unhandled)
                    Skip)
           (fun error =>
              logError [ArgConcat "Migration SQL statement failed with error code "
                                  (number error) ": " error]
                (Issue (StatementSave (failed error statement)
                          (callback (Some error)) unhandled)
                       Skip)))
        Skip.

Definition runPendingStatements (statements : nat) : Prog :=
  forEachSeries RowsRead statements runPendingStatement unhandled.

Definition constraint_query : string :=
  "select constraint_name from information_schema.KEY_COLUMN_USAGE where table_name = 'MigrationStatements'".

Definition constraint_statement : string :=
  "ALTER TABLE MigrationStatements ADD CONSTRAINT MigrationStatements_migration_id_fk FOREIGN KEY (migration_id) REFERENCES Migrations(id) ON DELETE CASCADE".

(** [rows == null || rows.length == 0] *)
Definition no_rows (rows : option (list string)) : bool :=
  match rows with
  | None => true
  | Some l => Nat.eqb (List.length l) 0
  end.

Definition bootstrap (callback : option Prog) : Prog :=
  Issue (Sync "Migrations"
           (Issue (Sync "MigrationStatements"
                     (Issue (executeSql constraint_query
                               (fun rows =>
                                  if no_rows rows
                                  then Issue (executeSql constraint_statement
                                                unhandled unhandled) Skip
                                  else Skip)
                               unhandled)
                            match callback with
                            | Some cb => cb
                            | None => Skip
                            end)
                     (fun error =>
                        logError [ArgText "Failed to run MigrationStatement.sync";
                                  ArgDbError error] Skip))
                  Skip)
           (fun error =>
              logError [ArgText "Failed to run Migration.sync"; ArgDbError error] Skip))
        Skip.

(** The second argument of [runOnce]: a string, or a reference to an array. *)
Inductive SqlStatements :=
| OneStatement (sql : JsStr)
| StatementArray (l : nat).

Definition runOnce (key : JsStr) (sqlStatements : SqlStatements) : Prog :=
  match sqlStatements with
  | StatementArray l => ArraySlice l
  | OneStatement sql => ArrayLiteral [sql]
  end
    (fun sqlStatements =>
       runIfNotExists key
         (Issue (MigrationCreate (normalize key)
                   (fun migration =>
                      createPendingStatements migration sqlStatements
                        (fun statements => runPendingStatements statements))
                   (fun _ =>
                      ArrayRead sqlStatements (fun arr =>
                        logError [ArgText "Failed to create migration";
                                  ArgStr key; ArgArray arr] Skip)))
                Skip)).

(** [p; q] within one turn: [q] follows the synchronous part of [p]. *)
Fixpoint and_then (p q : Prog) : Prog :=
  match p with
  | Skip => q
  | ConsoleLog args rest => ConsoleLog args (and_then rest q)
  | ArrayLiteral xs k => ArrayLiteral xs (fun l => and_then (k l) q)
  | ArraySlice l k => ArraySlice l (fun l' => and_then (k l') q)
  | ArrayRead l k => ArrayRead l (fun xs => and_then (k xs) q)
  | RowsLiteral k => RowsLiteral (fun l => and_then (k l) q)
  | RowsPush l r rest => RowsPush l r (and_then rest q)
  | RowsRead l k => RowsRead l (fun rs => and_then (k rs) q)
  | Issue r rest => Issue r (and_then rest q)
  end.

Fixpoint runAllOnce (migrations : list (JsStr * SqlStatements)) : Prog :=
  match migrations with
  | [] => Skip
  | (key, sqlStatements) :: migrations' =>
      and_then (runOnce key sqlStatements) (runAllOnce migrations')
  end.

(* ------------------------------------------------------------------ *)
(** ** Reference environments *)

(** A database that fails a request only where a declared constraint says
    so, and a driver whose SQL statements succeed unless listed in [bad]. *)
Definition driver_rejecting (bad : list (string * SqlError)) : Driver :=
  {| find_fault := fun _ _ => None;
     migration_fault := fun _ _ => None;
     statement_fault := fun _ _ _ => None;
     save_fault := fun _ _ => None;
     query_result := fun _ sql =>
       match List.find (fun b => String.eqb (fst b) sql) bad with
       | Some b => QueryFailed (snd b)
       | None => Rows (Some [])
       end;
     sync_fault := fun _ _ => None |}.

Definition reliable : Driver := driver_rejecting [].

Definition empty_world : World :=
  {| tables := []; migrations := []; statements := []; console := [];
     trace := []; heap := ∅ |}.

(* ------------------------------------------------------------------ *)
(** ** The vocabulary of the properties *)

(** The events recorded between world [w] and a later world [w']. *)
Definition since (w w' : World) : list Event :=
  drop (List.length (trace w)) (trace w').

(** SQL texts sent to the database with [executeSql], in order. *)
Definition executed (t : list Event) : list string :=
  omap (fun e => match e with EvQuery sql _ => Some sql | _ => None end) t.

(** The same with the answer to each. *)
Definition query_log (t : list Event) : list (string * QueryResult) :=
  omap (fun e => match e with EvQuery sql res => Some (sql, res) | _ => None end) t.

(** Values of [sql_statement] for which a row creation was requested. *)
Definition creation_requests (t : list Event) : list JsStr :=
  omap (fun e => match e with EvStatementCreate _ sql _ => Some sql | _ => None end) t.

(** Statement rows that were inserted. *)
Definition created (t : list Event) : list StatementRow :=
  omap (fun e => match e with
                 | EvStatementCreate _ _ (Succeeded s) => Some s
                 | _ => None
                 end) t.

(** Rows handed to [save()] and written. *)
Definition saved (t : list Event) : list StatementRow :=
  omap (fun e => match e with
                 | EvSave row (Succeeded _) => Some row
                 | _ => None
                 end) t.

(** Migration rows that were inserted. *)
Definition created_migrations (t : list Event) : list MigrationRow :=
  omap (fun e => match e with
                 | EvMigrationCreate _ (Succeeded m) => Some m
                 | _ => None
                 end) t.

(** Keys used in lookups and in Migration row creations. *)
Definition keys_used (t : list Event) : list JsStr :=
  omap (fun e => match e with
                 | EvFind key _ => Some key
                 | EvMigrationCreate key _ => Some key
                 | _ => None
                 end) t.

(** Row ids handed out one after the other rise above [bound]. *)
Fixpoint ascending (bound : nat) (ids : list nat) : Prop :=
  match ids with
  | [] => True
  | i :: ids' => bound < i /\ ascending i ids'
  end.

(** Two rows are the same statement when they agree on everything but the
    outcome columns. *)
Definition same_statement (r r' : StatementRow) : Prop :=
  stmt_id r' = stmt_id r /\ migration_id r' = migration_id r /\
  sql_statement r' = sql_statement r.

(** A new row as the database fills it in. *)
Definition pending_row (mid : nat) (r : StatementRow) : Prop :=
  migration_id r = mid /\ status r = "pending" /\
  error_code r = None /\ error_info r = None /\ sql_statement r <> "".

(** The events of the two phases. *)
Definition creation_event (mid : nat) (e : Event) : Prop :=
  exists sql res, e = EvStatementCreate mid sql res.

Definition execution_event (e : Event) : Prop :=
  (exists sql res, e = EvQuery sql res) \/ (exists row res, e = EvSave row res).

(** The console block written when a statement fails. *)
Definition failure_block (error : SqlError) : list LogArg :=
  [ArgText banner;
   ArgConcat "Migration SQL statement failed with error code " (number error) ": " error].

(** The console block written when the Migration row cannot be created. *)
Definition rejection_block (key : JsStr) (items : list JsStr) : list LogArg :=
  [ArgText banner; ArgText "Failed to create migration"; ArgStr key; ArgArray items].

(** The console block written when [sync()] fails. *)
Definition sync_failure_block (what : string) (e : DbError) : list LogArg :=
  [ArgText banner; ArgText what; ArgDbError e].

(** The request that checks for the foreign-key constraint, with the
    continuation that adds the constraint when there is none. *)
Definition constraint_check : Request :=
  executeSql constraint_query
    (fun rows =>
       if no_rows rows
       then Issue (executeSql constraint_statement unhandled unhandled) Skip
       else Skip)
    unhandled.

(** What the creation phase leaves behind: the rows [batch] were inserted
    after the rows [old], for the first items of [items] in their order;
    [t] are the requests that were answered and [err] is what the final
    callback of the series was given. *)
Record Creation (mid : nat) (old : list StatementRow) (items : list JsStr)
    (batch : list StatementRow) (err : option DbError) (t : list Event) : Prop := {
  cr_events : Forall (creation_event mid) t;
  cr_ids : ascending (max_list (map stmt_id old)) (map stmt_id batch);
  cr_rows : Forall (pending_row mid) batch;
  cr_order : map (fun r => Some (sql_statement r)) batch = take (List.length batch) items;
  cr_created : created t = batch;
  cr_requests : creation_requests t = map normalize (take (List.length t) items);
  cr_length : List.length t = List.length batch + match err with None => 0 | Some _ => 1 end;
  cr_complete : err = None -> List.length batch = List.length items;
  cr_failure : forall e, err = Some e ->
     exists sql, items !! List.length batch = Some sql /\
       t !! List.length batch = Some (EvStatementCreate mid (normalize sql) (Failed e));
  cr_not_null : forall mid' res, In (EvStatementCreate mid' None res) t ->
     res = Failed (NotNullViolation "sql_statement");
  cr_last : forall i mid' sql e, t !! i = Some (EvStatementCreate mid' sql (Failed e)) ->
     i = List.length batch /\ err = Some e
}.

(** What the execution phase leaves behind: of the statements [rows], the
    first [n] were sent to the database, in order and one at a time; a
    failed one is the last; all of them were sent unless the last one sent
    failed or its row could not be saved; [rows'] are the rows afterwards,
    those from the [n]-th on as they were; [t] are the requests that were
    answered and [c] is what was written to the console. *)
Record Execution (rows rows' : list StatementRow) (n : nat)
    (t : list Event) (c : list (list LogArg)) : Prop := {
  ex_events : Forall execution_event t;
  ex_count : n <= List.length rows;
  ex_started : rows <> [] -> 1 <= n;
  ex_order : executed t = map sql_statement (take n rows);
  ex_halt : forall i sql e, query_log t !! i = Some (sql, QueryFailed e) -> S i = n;
  ex_serial : forall i sql res, t !! i = Some (EvQuery sql res) ->
     exists row r, t !! S i = Some (EvSave row r) /\ sql_statement row = sql;
  ex_rows : Forall2 same_statement rows rows';
  ex_untouched : forall j, n <= j -> rows' !! j = rows !! j;
  ex_console : List.length c <= 1;
  ex_progress : n = List.length rows \/
     (exists sql e, last (query_log t) = Some (sql, QueryFailed e)) \/
     (exists row e, last t = Some (EvSave row (Failed e)))
}.

(** The statements a call was given, as they are when it is made. *)
Definition given_statements (sqlStatements : SqlStatements) (w : World) : list JsStr :=
  match sqlStatements with
  | OneStatement sql => [sql]
  | StatementArray l => read_strings l w
  end.

(** The array [runOnce] works on: [[sqlStatements]] or [sqlStatements.slice()]. *)
Definition working_copy (sqlStatements : SqlStatements) (w : World) : JsArray :=
  match sqlStatements with
  | OneStatement sql => StrArray [sql]
  | StatementArray l => slice l w
  end.

(** The four ways a call can go. *)
Inductive RunOnce (key : JsStr) (items : list JsStr) (w w' : World) : Prop :=
| LookupFailed e :
    since w w' = [EvFind (normalize key) (Failed e)] ->
    migrations w' = migrations w -> statements w' = statements w ->
    console w' = console w ->
    RunOnce key items w w'
| AlreadyRun m :
    since w w' = [EvFind (normalize key) (Succeeded (Some m))] ->
    find_migration (normalize key) (migrations w) = Some m ->
    migrations w' = migrations w -> statements w' = statements w ->
    console w' = console w ->
    RunOnce key items w w'
| MigrationRejected e :
    since w w' = [EvFind (normalize key) (Succeeded None);
                  EvMigrationCreate (normalize key) (Failed e)] ->
    find_migration (normalize key) (migrations w) = None ->
    migrations w' = migrations w -> statements w' = statements w ->
    console w' = console w ++ [rejection_block key items] ->
    RunOnce key items w w'
| Migrated k m batch err tc rows' n te c :
    normalize key = Some k ->
    find_migration (Some k) (migrations w) = None ->
    m = {| mig_id := next_id (map mig_id (migrations w)); migration_key := k |} ->
    since w w' = EvFind (Some k) (Succeeded None)
                 :: EvMigrationCreate (Some k) (Succeeded m) :: tc ++ te ->
    migrations w' = migrations w ++ [m] ->
    statements w' = statements w ++ rows' ->
    console w' = console w ++ c ->
    Creation (mig_id m) (statements w) items batch err tc ->
    Execution batch rows' n te c ->
    RunOnce key items w w'.

(** The Migration rows whose [migration_key] is [key]. *)
Definition has_key (key : JsStr) (m : MigrationRow) : bool :=
  match key with
  | Some k => String.eqb (migration_key m) k
  | None => false
  end.

Definition rows_with_key (key : JsStr) (ms : list MigrationRow) : list MigrationRow :=
  List.filter (has_key key) ms.

(** The idempotence property as the specification words it, for a second
    call that is made when the first has come to rest: after both calls
    there is exactly one Migration row with the normalized key, and one
    batch of Statement rows, which belongs to that row and follows the
    given statements; the second call inserts no row, executes no SQL and
    writes nothing to the console. *)
Definition idempotent (env : Driver) (key : JsStr) (sqlStatements : SqlStatements)
    (w : World) : Prop :=
  let w1 := run env (runOnce key sqlStatements) w in
  let w2 := run env (runOnce key sqlStatements) w1 in
  (exists m,
     rows_with_key (normalize key) (migrations w2) = [m] /\
     exists batch,
       statements w2 = statements w ++ batch /\
       Forall (fun r => migration_id r = mig_id m) batch /\
       map (fun r => Some (sql_statement r)) batch
         `prefix_of` given_statements sqlStatements w) /\
  migrations w2 = migrations w1 /\ statements w2 = statements w1 /\
  created_migrations (since w1 w2) = [] /\ created (since w1 w2) = [] /\
  executed (since w1 w2) = [] /\ console w2 = console w1.

(* ------------------------------------------------------------------ *)
(** ** Programs that run alone *)

(** Code in which every request is the last thing its turn does, as in
    all of [runOnce]: at most one request is pending at any time. *)
Inductive Sequential : Prog -> Prop :=
| sq_skip : Sequential Skip
| sq_log args rest : Sequential rest -> Sequential (ConsoleLog args rest)
| sq_array_literal xs k : (forall l, Sequential (k l)) -> Sequential (ArrayLiteral xs k)
| sq_array_slice l k : (forall l', Sequential (k l')) -> Sequential (ArraySlice l k)
| sq_array_read l k : (forall xs, Sequential (k xs)) -> Sequential (ArrayRead l k)
| sq_rows_literal k : (forall l, Sequential (k l)) -> Sequential (RowsLiteral k)
| sq_rows_push l r rest : Sequential rest -> Sequential (RowsPush l r rest)
| sq_rows_read l k : (forall rs, Sequential (k rs)) -> Sequential (RowsRead l k)
| sq_issue r : SequentialRequest r -> Sequential (Issue r Skip)
with SequentialRequest : Request -> Prop :=
| sq_find key success error :
    (forall m, Sequential (success m)) -> (forall e, Sequential (error e)) ->
    SequentialRequest (MigrationFind key success error)
| sq_migration_create key success error :
    (forall m, Sequential (success m)) -> (forall e, Sequential (error e)) ->
    SequentialRequest (MigrationCreate key success error)
| sq_statement_create mid sql success error :
    (forall s, Sequential (success s)) -> (forall e, Sequential (error e)) ->
    SequentialRequest (StatementCreate mid sql success error)
| sq_save row success error :
    Sequential success -> (forall e, Sequential (error e)) ->
    SequentialRequest (StatementSave row success error)
| sq_query sql success error :
    (forall rows, Sequential (success rows)) -> (forall e, Sequential (error e)) ->
    SequentialRequest (Query sql success error)
| sq_sync table success error :
    Sequential success -> (forall e, Sequential (error e)) ->
    SequentialRequest (Sync table success error).

Scheme Prog_mut := Induction for Prog Sort Prop
  with Request_mut := Induction for Request Sort Prop.

Scheme Sequential_mut := Minimality for Sequential Sort Prop
  with SequentialRequest_mut := Minimality for SequentialRequest Sort Prop.

#[local] Hint Constructors Sequential SequentialRequest : core.

(* ------------------------------------------------------------------ *)
(** ** Environments and worlds of the examples *)

(** A failure that no constraint explains. *)
Definition connection_lost : DbError :=
  DriverFailure {| number := None; message := "connection lost" |}.

(** A database whose lookups fail. *)
Definition driver_without_lookup : Driver :=
  {| find_fault := fun _ _ => Some connection_lost;
     migration_fault := fun _ _ => None;
     statement_fault := fun _ _ _ => None;
     save_fault := fun _ _ => None;
     query_result := fun _ _ => Rows (Some []);
     sync_fault := fun _ _ => None |}.

(** A database that refuses every new Migration row. *)
Definition driver_without_insert : Driver :=
  {| find_fault := fun _ _ => None;
     migration_fault := fun _ _ => Some connection_lost;
     statement_fault := fun _ _ _ => None;
     save_fault := fun _ _ => None;
     query_result := fun _ _ => Rows (Some []);
     sync_fault := fun _ _ => None |}.

(** A database that refuses to save a Statement row. *)
Definition driver_without_save : Driver :=
  {| find_fault := fun _ _ => None;
     migration_fault := fun _ _ => None;
     statement_fault := fun _ _ _ => None;
     save_fault := fun _ _ => Some connection_lost;
     query_result := fun _ _ => Rows (Some []);
     sync_fault := fun _ _ => None |}.

(** MySQL's error 1060, the example of the module's header comment. *)
Definition duplicate_column : SqlError :=
  {| number := Some 1060%Z; message := "Duplicate column name" |}.

(** Two pending rows, the first of which the database rejects. *)
Definition two_pending : World :=
  let row1 := {| stmt_id := 1; migration_id := 1; sql_statement := "S1";
                 status := "pending"; error_code := None; error_info := None |} in
  let row2 := {| stmt_id := 2; migration_id := 1; sql_statement := "S2";
                 status := "pending"; error_code := None; error_info := None |} in
  {| tables := []; migrations := [{| mig_id := 1; migration_key := "m" |}];
     statements := [row1; row2]; console := []; trace := [];
     heap := {[ 0 := RowArray [row1; row2] ]} |}.

(** An empty database and a caller that holds the array [["A"]]. *)
Definition one_array : World :=
  set_heap (fun h => <[0 := StrArray [Some "A"]]> h) empty_world.

(** The same with the array [["A", "", "B"]]. *)
Definition three_statements : World :=
  set_heap (fun h => <[0 := StrArray [Some "A"; Some ""; Some "B"]]> h) empty_world.

(* ------------------------------------------------------------------ *)
(** ** Vocabulary of the further properties *)

(** A database and a driver that never fail a request for a reason of
    their own: requests fail only on the declared constraints, and every
    SQL statement succeeds. *)
Record Healthy (env : Driver) : Prop := {
  hl_find : forall w key, find_fault env w key = None;
  hl_migration : forall w k, migration_fault env w k = None;
  hl_statement : forall w mid s, statement_fault env w mid s = None;
  hl_save : forall w row, save_fault env w row = None;
  hl_query : forall w sql, exists rows, query_result env w sql = Rows rows
}.

(** The rows the database makes of the SQL texts [sqls] for Migration
    [mid], the first with id [first]. *)
Fixpoint new_rows (mid first : nat) (sqls : list string) : list StatementRow :=
  match sqls with
  | [] => []
  | s :: sqls' =>
      {| stmt_id := first; migration_id := mid; sql_statement := s;
         status := "pending"; error_code := None; error_info := None |}
      :: new_rows mid (S first) sqls'
  end.

(** The row of a statement after the answer [res] to its SQL. *)
Definition row_after (res : QueryResult) (r : StatementRow) : StatementRow :=
  match res with
  | Rows _ => succeeded r
  | QueryFailed e => failed e r
  end.

(** The rows [rows] after the answers [answers] to the SQL of the first of
    them: a row whose statement was not sent is as it was. *)
Fixpoint apply_answers (answers : list QueryResult) (rows : list StatementRow)
  : list StatementRow :=
  match answers, rows with
  | a :: answers', r :: rows' => row_after a r :: apply_answers answers' rows'
  | _, _ => rows
  end.

(** The console block for an answer, if it is a failure. *)
Definition failure_of (res : QueryResult) : option (list LogArg) :=
  match res with
  | Rows _ => None
  | QueryFailed e => Some (failure_block e)
  end.

Definition is_rows (res : QueryResult) : Prop :=
  match res with
  | Rows _ => True
  | QueryFailed _ => False
  end.

(** The console blocks that answer the events [t] of a [runOnce] call with
    key [key] and statements [items]: one for a Migration row that could
    not be created, one for an SQL statement that failed. *)
Definition logged (key : JsStr) (items : list JsStr) (t : list Event)
  : list (list LogArg) :=
  omap (fun e => match e with
                 | EvMigrationCreate _ (Failed _) => Some (rejection_block key items)
                 | EvQuery _ (QueryFailed e) => Some (failure_block e)
                 | _ => None
                 end) t.

(** The bookkeeping tables as the schema and the module mean them to be:
    keys unique and not empty, ids unique, every Statement row with a
    statement and with the id of a Migration row. *)
Record WellFormed (w : World) : Prop := {
  wf_keys : NoDup (map migration_key (migrations w));
  wf_keys_not_empty : Forall (fun m => migration_key m <> "") (migrations w);
  wf_migration_ids : NoDup (map mig_id (migrations w));
  wf_statement_ids : NoDup (map stmt_id (statements w));
  wf_references : Forall (fun r => In (migration_id r) (map mig_id (migrations w)))
                    (statements w);
  wf_sql_not_empty : Forall (fun r => sql_statement r <> "") (statements w)
}.

(** The key a pending lookup asks for. *)
Definition lookup_key (r : Request) : option JsStr :=
  match r with
  | MigrationFind key _ _ => Some key
  | _ => None
  end.

(** A world with one Migration row, for the key "add_col". *)
Definition after_add_col : World :=
  set_migrations (fun _ => [{| mig_id := 1; migration_key := "add_col" |}]) empty_world.

(** An empty database and a caller that holds the empty array. *)
Definition empty_array : World :=
  set_heap (fun h => <[0 := StrArray []]> h) empty_world.

(* ------------------------------------------------------------------ *)
(** ** Proof tools *)

Ltac query_and_save :=
  repeat first
    [ apply List.Forall_nil
    | apply List.Forall_cons;
      [ first [ left; eexists _, _; reflexivity | right; eexists _, _; reflexivity ] | ] ].

(* ------------------------------------------------------------------ *)
(** ** The semantics: what [run] computes *)

Section WithDriver.

(** The behaviour of the database and its driver is arbitrary but fixed. *)
Variable env : Driver.

Lemma steps_app s1 s2 c c' :
  steps env s1 c = Some c' -> steps env (s1 ++ s2) c = steps env s2 c'.
Proof.
  revert c. induction s1 as [|i s1 IH]; intros c H; simpl in *.
  - congruence.
  - destruct (step env i c); [apply IH; exact H | discriminate].
Qed.

(** A request that waits at the head of the queue does not disturb the
    others: they can be answered around it. *)
Lemma steps_frame r schedule w l w' l' :
  steps env schedule (w, l) = Some (w', l') ->
  steps env (map S schedule) (w, r :: l) = Some (w', r :: l').
Proof.
  revert w l. induction schedule as [|i s IH]; intros w l H; simpl in *.
  - inversion H; subst; reflexivity.
  - destruct (l !! i) as [q|]; [|discriminate].
    destruct (turn (handler env q w) (effect env q w)) as [w1 new].
    apply IH in H. exact H.
Qed.

(** [run] computes the outcome of one complete way of running [p]. *)
Lemma run_is_an_outcome p :
  forall w, exists schedule, steps env schedule (turn p w) = Some (run env p w, []).
Proof.
  induction p using Prog_mut with
    (P0 := fun r => forall w, exists schedule,
             steps env schedule (turn (handler env r w) (effect env r w))
             = Some (run env (handler env r w) (effect env r w), []));
    intros w; simpl; eauto.
  - exists []. reflexivity.
  - destruct (IHp0 w) as [s1 H1].
    destruct (turn p w) as [w1 l1].
    destruct (IHp (run env p w)) as [s2 H2].
    exists (map S s1 ++ 0 :: s2).
    erewrite steps_app by (apply steps_frame; exact H1).
    simpl.
    destruct (turn (handler env r (run env p w)) (effect env r (run env p w))).
    exact H2.
  - destruct (answer_find env w key); eauto.
  - destruct (answer_migration_create env w key); eauto.
  - destruct (answer_statement_create env w mid sql); eauto.
  - destruct (answer_save env w row); eauto.
  - destruct (query_result env w sql); eauto.
  - destruct (answer_sync env w table); eauto.
Qed.

(** For sequential code there is no other outcome: whatever the schedule,
    a run that comes to rest ends in the world [run] computes. *)
Lemma run_only_outcome p :
  Sequential p ->
  forall schedule w w',
    steps env schedule (turn p w) = Some (w', []) -> w' = run env p w.
Proof.
  intros Hp.
  induction Hp using Sequential_mut with
    (P0 := fun r => forall schedule w w',
             steps env schedule (turn (handler env r w) (effect env r w)) = Some (w', [])
             -> w' = run env (handler env r w) (effect env r w));
    intros schedule w w' Hrun; simpl in *; eauto.
  - destruct schedule; simpl in Hrun; [congruence|discriminate].
  - destruct schedule as [|[|i] s]; simpl in Hrun; try discriminate.
    destruct (turn (handler env r w) (effect env r w)) as [w1 new] eqn:E.
    simpl in Hrun. eapply IHHp. rewrite E. exact Hrun.
  - destruct (answer_find env w key); eauto.
  - destruct (answer_migration_create env w key); eauto.
  - destruct (answer_statement_create env w mid sql); eauto.
  - destruct (answer_save env w row); eauto.
  - destruct (query_result env w sql); eauto.
  - destruct (answer_sync env w table); eauto.
Qed.

Lemma series_sequential {A E : Type} (items : list A)
    (iterator : A -> (option E -> Prog) -> Prog) (callback : option E -> Prog) :
  (forall item k, (forall err, Sequential (k err)) -> Sequential (iterator item k)) ->
  (forall err, Sequential (callback err)) ->
  Sequential (series items iterator callback).
Proof.
  intros Hit Hcb. induction items as [|item items IH]; simpl.
  - apply Hcb.
  - apply Hit. intros [e|]; [apply Hcb | exact IH].
Qed.

Lemma runPendingStatements_sequential statements :
  Sequential (runPendingStatements statements).
Proof.
  unfold runPendingStatements, forEachSeries.
  constructor. intros rs. apply series_sequential; [|constructor].
  intros item k Hk. unfold runPendingStatement, executeSql, logError, unhandled.
  auto 10.
Qed.

Lemma createPendingStatements_sequential migration sqlStatements callback :
  (forall statements, Sequential (callback statements)) ->
  Sequential (createPendingStatements migration sqlStatements callback).
Proof.
  intros Hcb. unfold createPendingStatements, forEachSeries.
  constructor. intros statements. constructor. intros xs.
  apply series_sequential; [|auto].
  intros item k Hk. unfold iterator. auto 10.
Qed.

Lemma runOnce_sequential key sqlStatements :
  Sequential (runOnce key sqlStatements).
Proof.
  assert (forall l, Sequential
    (runIfNotExists key
       (Issue (MigrationCreate (normalize key)
                 (fun migration =>
                    createPendingStatements migration l
                      (fun statements => runPendingStatements statements))
                 (fun _ =>
                    ArrayRead l (fun arr =>
                      logError [ArgText "Failed to create migration";
                                ArgStr key; ArgArray arr] Skip)))
              Skip))) as H.
  { intros l. unfold runIfNotExists, logError, unhandled.
    constructor. constructor; [|constructor].
    intros [found|]; [constructor|].
    constructor. constructor.
    - intros migration. apply createPendingStatements_sequential.
      apply runPendingStatements_sequential.
    - intros e. repeat constructor. }
  destruct sqlStatements; simpl; constructor; exact H.
Qed.

(** [runOnce] has one outcome: every schedule that lets it come to rest
    ends in [run env (runOnce key sqlStatements) w], and there is one. *)
Lemma runOnce_outcome key sqlStatements w :
  (exists schedule,
     steps env schedule (turn (runOnce key sqlStatements) w)
     = Some (run env (runOnce key sqlStatements) w, [])) /\
  (forall schedule w',
     steps env schedule (turn (runOnce key sqlStatements) w) = Some (w', []) ->
     w' = run env (runOnce key sqlStatements) w).
Proof.
  split.
  - apply run_is_an_outcome.
  - intros schedule w'. apply run_only_outcome, runOnce_sequential.
Qed.

(* ------------------------------------------------------------------ *)
(** ** Traces, row ids and saved rows *)

Lemma since_app w w' t : trace w' = trace w ++ t -> since w w' = t.
Proof. intros H. unfold since. rewrite H. apply drop_app_length. Qed.

Lemma ascending_above bound ids :
  ascending bound ids -> Forall (fun i => bound < i) ids.
Proof.
  revert bound. induction ids as [|i ids IH]; intros bound H; simpl in *.
  - constructor.
  - destruct H as [Hlt H]. constructor; [exact Hlt|].
    apply IH in H. eapply Forall_impl; [exact H|]. simpl. intros; lia.
Qed.

Lemma ascending_weaken b b' ids : b' <= b -> ascending b ids -> ascending b' ids.
Proof. destruct ids; simpl; [tauto|]. intros ? [? ?]. split; [lia|assumption]. Qed.

Lemma max_list_app (l1 l2 : list nat) :
  max_list (l1 ++ l2) = Nat.max (max_list l1) (max_list l2).
Proof. induction l1 as [|x l1 IH]; simpl; [reflexivity|]. rewrite IH. lia. Qed.

Lemma update_row_other row rows :
  Forall (fun r => stmt_id r <> stmt_id row) rows -> update_row row rows = rows.
Proof.
  induction 1 as [|r rows Hr _ IH]; simpl; [reflexivity|].
  rewrite IH. destruct (Nat.eqb_spec (stmt_id r) (stmt_id row)); congruence.
Qed.

(** Saving the changed copy of a row that sits between rows with other ids
    replaces that row and no other. *)
Lemma update_row_middle row' row pre post :
  stmt_id row' = stmt_id row ->
  Forall (fun r => stmt_id r <> stmt_id row) pre ->
  Forall (fun r => stmt_id r <> stmt_id row) post ->
  update_row row' (pre ++ row :: post) = pre ++ row' :: post.
Proof.
  intros Hid Hpre Hpost.
  assert (update_row row' pre = pre) as Hpre'
    by (apply update_row_other; rewrite Hid; exact Hpre).
  assert (update_row row' post = post) as Hpost'
    by (apply update_row_other; rewrite Hid; exact Hpost).
  unfold update_row in *. rewrite map_app. simpl.
  rewrite Hpre', Hpost', Hid, Nat.eqb_refl. reflexivity.
Qed.

Lemma ids_below_max (rows : list StatementRow) i :
  max_list (map stmt_id rows) < i -> Forall (fun r => stmt_id r <> i) rows.
Proof.
  intros H. apply Forall_forall. intros r Hr Heq.
  assert (stmt_id r <= max_list (map stmt_id rows)).
  { apply max_list_elem_of_le. apply list_elem_of_fmap. exists r. split; [reflexivity|exact Hr]. }
  lia.
Qed.

Lemma ids_above (rows : list StatementRow) i :
  ascending i (map stmt_id rows) -> Forall (fun r => stmt_id r <> i) rows.
Proof.
  intros H. apply ascending_above in H. rewrite Forall_fmap in H.
  eapply Forall_impl; [exact H|]. simpl. intros; lia.
Qed.

(* ------------------------------------------------------------------ *)
(** ** The execution phase *)

(** One round of the series of [runPendingStatements]. *)
Lemma runPendingStatement_round statement rest callback w :
  run env (series (statement :: rest) runPendingStatement callback) w =
  let sql := sql_statement statement in
  let w1 := record (EvQuery sql (query_result env w sql)) w in
  match query_result env w sql with
  | Rows _ =>
      match save_fault env w1 (succeeded statement) with
      | None =>
          run env (series rest runPendingStatement callback)
            (record (EvSave (succeeded statement) (Succeeded tt))
               (set_statements (update_row (succeeded statement)) w1))
      | Some e' => record (EvSave (succeeded statement) (Failed e')) w1
      end
  | QueryFailed error =>
      let w2 := print (failure_block error) w1 in
      match save_fault env w2 (failed error statement) with
      | None =>
          run env (callback (Some error))
            (record (EvSave (failed error statement) (Succeeded tt))
               (set_statements (update_row (failed error statement)) w2))
      | Some e' => record (EvSave (failed error statement) (Failed e')) w2
      end
  end.
Proof.
  simpl. destruct (query_result env w (sql_statement statement)) as [rows|error]; simpl.
  - unfold answer_save.
    destruct (save_fault env _ (succeeded statement)); reflexivity.
  - unfold answer_save.
    destruct (save_fault env _ (failed error statement)); reflexivity.
Qed.

Lemma same_statement_refl (rows : list StatementRow) : Forall2 same_statement rows rows.
Proof. induction rows; constructor; [repeat split | assumption]. Qed.

(** The phase as a whole, for rows that are the tail of the table and
    carry fresh ids (as rows just created do). *)
Lemma execution_phase rows :
  forall pre w,
    statements w = pre ++ rows ->
    ascending (max_list (map stmt_id pre)) (map stmt_id rows) ->
    exists n rows' t c,
      let w' := run env (series rows runPendingStatement unhandled) w in
      trace w' = trace w ++ t /\
      statements w' = pre ++ rows' /\
      migrations w' = migrations w /\ tables w' = tables w /\ heap w' = heap w /\
      console w' = console w ++ c /\
      Execution rows rows' n t c.
Proof.
  induction rows as [|st rest IH]; intros pre w Hst Hasc.
  - exists 0, [], [], []. simpl. rewrite app_nil_r in Hst. rewrite !app_nil_r.
    split_and!; try reflexivity; [exact Hst|].
    constructor; simpl; auto using same_statement_refl.
    + intros H. contradiction.
    + intros i sql e H. discriminate H.
    + intros i sql res H. discriminate H.
  - rewrite runPendingStatement_round. cbv zeta.
    simpl in Hasc. destruct Hasc as [Hlt Hasc].
    pose proof (ids_below_max pre _ Hlt) as Hpre.
    pose proof (ids_above rest _ Hasc) as Hpost.
    destruct (query_result env w (sql_statement st)) as [rs|error] eqn:Hq.
    + destruct (save_fault env _ (succeeded st)) as [e'|] eqn:Hs.
      * exists 1, (st :: rest), [EvQuery (sql_statement st) (Rows rs);
                                 EvSave (succeeded st) (Failed e')], [].
        simpl. rewrite ?app_nil_r, <- ?app_assoc. simpl.
        split_and!; try reflexivity; [exact Hst|].
        constructor; simpl; auto using same_statement_refl; try lia.
        -- query_and_save.
        -- intros [|[|i]] sql e H; simpl in H; discriminate H.
        -- intros [|[|i]] sql res H; simpl in H; try discriminate H.
           injection H as <- _. eexists _, _. split; reflexivity.
        -- right. right. eexists _, _. reflexivity.
      * set (w2 := record _ (set_statements _ _)).
        destruct (IH (pre ++ [succeeded st]) w2) as (n & rows' & t & c & H).
        { subst w2. simpl. rewrite Hst, <- app_assoc. simpl.
          apply update_row_middle; auto. }
        { rewrite map_app, max_list_app. simpl.
          eapply ascending_weaken; [|exact Hasc].
          apply Nat.max_lub; [apply Nat.lt_le_incl; exact Hlt | apply Nat.max_lub; [reflexivity | apply Nat.le_0_l]]. }
        cbv zeta in H.
        destruct H as (Ht & Hst' & Hm & Htab & Hheap & Hcon & HE).
        exists (S n), (succeeded st :: rows'),
          (EvQuery (sql_statement st) (Rows rs)
           :: EvSave (succeeded st) (Succeeded tt) :: t), c.
        simpl. rewrite Ht, Hst', Hm, Htab, Hheap, Hcon. subst w2. simpl.
        rewrite <- !app_assoc. simpl.
        split_and!; try reflexivity.
        destruct HE as [Hev Hn _ Hex Hhalt Hser Hsame Hrest Hc Hprog].
        constructor; simpl; auto.
        -- constructor; [left; eexists _, _; reflexivity|].
           constructor; [right; eexists _, _; reflexivity|exact Hev].
        -- apply le_n_S. exact Hn.
        -- intros _. apply le_n_S, Nat.le_0_l.
        -- fold (executed t). rewrite Hex. reflexivity.
        -- intros [|i] sql e H; simpl in H; [discriminate H|].
           f_equal. eapply Hhalt. exact H.
        -- intros [|[|i]] sql res H; simpl in H; try discriminate H.
           ++ injection H as <- _. eexists _, _. split; reflexivity.
           ++ apply Hser in H. exact H.
        -- constructor; [repeat split | exact Hsame].
        -- intros [|j] Hj; simpl; [inversion Hj|]. apply Hrest.
           apply le_S_n. exact Hj.
        -- fold (query_log t).
           destruct Hprog as [->|[(sql & e & Hq')|(row & e & Hs')]].
           ++ left. reflexivity.
           ++ right. left. exists sql, e. rewrite last_cons, Hq'. reflexivity.
           ++ right. right. exists row, e. rewrite !last_cons, Hs'. reflexivity.
    + set (w2 := print _ _).
      destruct (save_fault env w2 (failed error st)) as [e'|] eqn:Hs.
      * exists 1, (st :: rest), [EvQuery (sql_statement st) (QueryFailed error);
                                 EvSave (failed error st) (Failed e')],
          [failure_block error].
        subst w2. simpl. rewrite ?app_nil_r, <- ?app_assoc. simpl.
        split_and!; try reflexivity; [exact Hst|].
        constructor; simpl; auto using same_statement_refl; try lia.
        -- query_and_save.
        -- intros [|[|i]] sql e H; simpl in H; try discriminate H. reflexivity.
        -- intros [|[|i]] sql res H; simpl in H; try discriminate H.
           injection H as <- _. eexists _, _. split; reflexivity.
        -- right. left. eexists _, _. reflexivity.
      * exists 1, (failed error st :: rest),
          [EvQuery (sql_statement st) (QueryFailed error);
           EvSave (failed error st) (Succeeded tt)],
          [failure_block error].
        subst w2. simpl. rewrite ?app_nil_r, <- ?app_assoc. simpl.
        split_and!; try reflexivity.
        { rewrite Hst. apply update_row_middle; auto. }
        constructor; simpl; auto; try lia.
        -- query_and_save.
        -- intros [|[|i]] sql e H; simpl in H; try discriminate H. reflexivity.
        -- intros [|[|i]] sql res H; simpl in H; try discriminate H.
           injection H as <- _. eexists _, _. split; reflexivity.
        -- constructor; [repeat split | apply same_statement_refl].
        -- intros [|j] Hj; simpl; [inversion Hj|reflexivity].
        -- right. left. eexists _, _. reflexivity.
Qed.

(* ------------------------------------------------------------------ *)
(** ** The creation phase *)

(** One round of the series of [createPendingStatements]. *)
Lemma iterator_round migration statements sql rest callback w :
  run env (series (sql :: rest) (iterator migration statements) callback) w =
  let res := answer_statement_create env w (mig_id migration) (normalize sql) in
  let ev := EvStatementCreate (mig_id migration) (normalize sql) res in
  match res with
  | Succeeded s =>
      run env (series rest (iterator migration statements) callback)
        (push statements s (record ev (set_statements (fun ss => ss ++ [s]) w)))
  | Failed e => run env (callback (Some e)) (record ev w)
  end.
Proof.
  simpl.
  destruct (answer_statement_create env w (mig_id migration) (normalize sql));
    reflexivity.
Qed.

Lemma creation_events_only mid t :
  Forall (creation_event mid) t ->
  executed t = [] /\ query_log t = [] /\ saved t = [] /\
  created_migrations t = [] /\ keys_used t = [].
Proof.
  induction 1 as [|e t (sql & res & ->) _ IH]; [repeat split|].
  destruct IH as (? & ? & ? & ? & ?). repeat split; assumption.
Qed.

Lemma execution_events_only t :
  Forall execution_event t ->
  created t = [] /\ creation_requests t = [] /\
  created_migrations t = [] /\ keys_used t = [].
Proof.
  induction 1 as [|e t [(sql & res & ->)|(row & res & ->)] _ IH]; [repeat split| |];
    destruct IH as (? & ? & ? & ?); repeat split; try assumption.
  all: simpl; destruct res; assumption.
Qed.

Lemma normalize_Some sql s : normalize sql = Some s -> sql = Some s /\ s <> "".
Proof.
  unfold normalize, isEmpty. destruct sql as [x|]; [|discriminate].
  destruct x as [|c x]; simpl; intros H; [discriminate H|].
  injection H as <-. split; [reflexivity|discriminate].
Qed.

Lemma normalize_None sql : normalize sql = None <-> sql = None \/ sql = Some "".
Proof.
  unfold normalize, isEmpty.
  destruct sql as [[|c x]|]; simpl; split; intros H; auto;
    try discriminate H; destruct H as [H|H]; discriminate H.
Qed.

Lemma creation_phase migration loc callback items :
  forall acc w,
    heap w !! loc = Some (RowArray acc) ->
    exists batch err t w1,
      run env (series items (iterator migration loc) callback) w
      = run env (callback err) w1 /\
      tables w1 = tables w /\ migrations w1 = migrations w /\ console w1 = console w /\
      statements w1 = statements w ++ batch /\
      heap w1 = <[loc := RowArray (acc ++ batch)]> (heap w) /\
      trace w1 = trace w ++ t /\
      Creation (mig_id migration) (statements w) items batch err t.
Proof.
  induction items as [|sql items IH]; intros acc w Hloc.
  - exists [], None, [], w. simpl. rewrite !app_nil_r, insert_id by exact Hloc.
    split_and!; try reflexivity.
    constructor; simpl; auto.
    + intros e H. discriminate H.
    + intros mid' res [].
    + intros i mid' sql e H. discriminate H.
  - rewrite iterator_round. cbv zeta.
    destruct (answer_statement_create env w (mig_id migration) (normalize sql))
      as [s|e] eqn:Hans.
    + set (w2 := push loc s _).
      assert (heap w2 = <[loc := RowArray (acc ++ [s])]> (heap w)) as Hheap2.
      { subst w2. simpl. rewrite Hloc. reflexivity. }
      destruct (IH (acc ++ [s]) w2) as (batch & err & t & w1 & Hrun & Htab & Hmig & Hcon
                                        & Hst & Hheap & Htr & HC).
      { rewrite Hheap2. apply lookup_insert_eq. }
      assert (exists x, normalize sql = Some x /\ s =
                {| stmt_id := next_id (map stmt_id (statements w));
                   migration_id := mig_id migration; sql_statement := x;
                   status := "pending"; error_code := None; error_info := None |})
        as (x & Hnorm & Hs).
      { unfold answer_statement_create in Hans.
        destruct (normalize sql) as [x|]; [|discriminate].
        destruct (statement_fault env w (mig_id migration) x); [discriminate|].
        exists x. split; [reflexivity|]. congruence. }
      destruct (normalize_Some _ _ Hnorm) as [-> Hx].
      exists (s :: batch), err,
        (EvStatementCreate (mig_id migration) (normalize (Some x)) (Succeeded s) :: t), w1.
      split_and!.
      * exact Hrun.
      * rewrite Htab. reflexivity.
      * rewrite Hmig. reflexivity.
      * rewrite Hcon. reflexivity.
      * rewrite Hst. subst w2. simpl. rewrite <- app_assoc. reflexivity.
      * rewrite Hheap, Hheap2, insert_insert_eq, <- app_assoc. reflexivity.
      * rewrite Htr. subst w2. simpl. rewrite <- app_assoc. reflexivity.
      * destruct HC as [Hev Hids Hrows Hord Hcr Hreq Hlen Hcomp Hfail Hnull Hlast].
        subst w2. simpl in Hids. rewrite map_app, max_list_app in Hids. simpl in Hids.
        assert (stmt_id s = S (max_list (map stmt_id (statements w)))) as Hid
          by (rewrite Hs; reflexivity).
        constructor; simpl.
        -- constructor; [eexists _, _; reflexivity | exact Hev].
        -- split; [rewrite Hid; apply Nat.lt_succ_diag_r|].
           eapply ascending_weaken; [|exact Hids]. apply Nat.max_le_iff. right.
           apply Nat.le_max_l.
        -- constructor; [|exact Hrows]. rewrite Hs. repeat split. exact Hx.
        -- rewrite Hord. rewrite Hs at 1. reflexivity.
        -- fold (created t). rewrite Hcr. reflexivity.
        -- fold (creation_requests t). rewrite Hreq. reflexivity.
        -- rewrite Hlen. reflexivity.
        -- intros H. rewrite Hcomp by exact H. reflexivity.
        -- intros e H. destruct (Hfail e H) as (sql' & H1 & H2). eauto.
        -- intros mid' res [H|H]; [|eapply Hnull; exact H].
           rewrite Hnorm in H. discriminate H.
        -- intros [|i] mid' sql' e H; simpl in H; [discriminate H|].
           apply Hlast in H. destruct H as [-> ->]. split; reflexivity.
    + exists [], (Some e), [EvStatementCreate (mig_id migration) (normalize sql) (Failed e)],
        (record (EvStatementCreate (mig_id migration) (normalize sql) (Failed e)) w).
      rewrite !app_nil_r, insert_id by exact Hloc.
      split_and!; try reflexivity.
      constructor; simpl.
      * constructor; [eexists _, _; reflexivity | constructor].
      * exact I.
      * constructor.
      * reflexivity.
      * reflexivity.
      * reflexivity.
      * reflexivity.
      * intros H. discriminate H.
      * intros e' H. injection H as <-. exists sql. split; reflexivity.
      * intros mid' res [H|[]]. injection H as _ Hn <-.
        unfold answer_statement_create in Hans. rewrite Hn in Hans.
        congruence.
      * intros [|i] mid' sql' e' H; simpl in H; [|discriminate H].
        injection H as _ _ <-. split; reflexivity.
Qed.

(* ------------------------------------------------------------------ *)
(** ** Anatomy of a [runOnce] call *)

Lemma fresh_loc_free w : heap w !! fresh_loc w = None.
Proof. unfold fresh_loc. apply (not_elem_of_dom (heap w)), is_fresh. Qed.

Lemma answer_migration_create_Succeeded w key m :
  answer_migration_create env w key = Succeeded m ->
  exists k, key = Some k /\
    m = {| mig_id := next_id (map mig_id (migrations w)); migration_key := k |}.
Proof.
  unfold answer_migration_create. destruct key as [k|]; [|intros H; discriminate H].
  destruct (existsb _ _); [intros H; discriminate H|].
  destruct (migration_fault env w k); [intros H; discriminate H|].
  intros H. injection H as <-. exists k. split; reflexivity.
Qed.

Lemma strings_of_slice l w :
  match slice l w with StrArray xs => xs | RowArray _ => [] end = read_strings l w.
Proof. unfold slice, read_strings. destruct (heap w !! l) as [[xs|rs]|]; reflexivity. Qed.

Lemma runOnce_after_copy key arr w :
  let loc := fresh_loc w in
  let items := match arr with StrArray xs => xs | RowArray _ => [] end in
  let w' :=
    run env
      (runIfNotExists key
         (Issue (MigrationCreate (normalize key)
                   (fun migration =>
                      createPendingStatements migration loc
                        (fun statements => runPendingStatements statements))
                   (fun _ =>
                      ArrayRead loc (fun arr =>
                        logError [ArgText "Failed to create migration";
                                  ArgStr key; ArgArray arr] Skip)))
                Skip))
      (alloc arr w) in
  tables w' = tables w /\ heap w ⊆ heap w' /\ heap w' !! loc = Some arr /\
  RunOnce key items w w'.
Proof.
  intros loc items.
  pose proof (fresh_loc_free w) as Hfree. fold loc in Hfree.
  assert (heap (alloc arr w) = <[loc := arr]> (heap w)) as Hheap0 by reflexivity.
  assert (heap w ⊆ <[loc := arr]> (heap w)) as Hsub0 by (apply insert_subseteq; exact Hfree).
  unfold runIfNotExists. cbn [run handler effect].
  set (w0 := alloc arr w).
  destruct (answer_find env w0 (normalize key)) as [[m|]|e] eqn:Hfind.
  - (* a row with the key exists *)
    simpl. split_and!; [reflexivity | exact Hsub0 | apply lookup_insert_eq |].
    apply AlreadyRun with m; try reflexivity.
    + apply since_app. reflexivity.
    + unfold answer_find in Hfind. destruct (find_fault env w0 (normalize key)); [discriminate Hfind|].
      injection Hfind as Hfind. exact Hfind.
  - (* no row with the key *)
    set (w1 := record _ w0).
    cbn [run handler effect].
    destruct (answer_migration_create env w1 (normalize key)) as [m|e] eqn:Hcreate.
    + destruct (answer_migration_create_Succeeded _ _ _ Hcreate) as (k & Hk & Hm).
      assert (find_migration (Some k) (migrations w) = None) as Hnone.
      { unfold answer_find in Hfind.
        destruct (find_fault env w0 (normalize key)); [discriminate Hfind|].
        injection Hfind as Hfind. rewrite Hk in Hfind. exact Hfind. }
      set (w2 := record _ (set_migrations _ w1)).
      unfold createPendingStatements, forEachSeries. cbn [run].
      pose proof (fresh_loc_free w2) as Hfree2.
      set (loc2 := fresh_loc w2) in *.
      set (w3 := alloc (RowArray []) w2).
      assert (heap w3 = <[loc2 := RowArray []]> (<[loc := arr]> (heap w))) as Hheap3
        by reflexivity.
      assert (loc2 <> loc) as Hne.
      { intros Heq. rewrite Heq in Hfree2.
        change (heap w2) with (<[loc := arr]> (heap w)) in Hfree2.
        rewrite lookup_insert_eq in Hfree2. discriminate Hfree2. }
      assert (read_strings loc w3 = items) as ->.
      { unfold read_strings. rewrite Hheap3, lookup_insert_ne, lookup_insert_eq by exact Hne.
        reflexivity. }
      destruct (creation_phase m loc2 (fun _ => runPendingStatements loc2) items [] w3)
        as (batch & err & tc & w4 & Hrun & Htab & Hmig & Hcon & Hst & Hheap & Htr & HC).
      { rewrite Hheap3. apply lookup_insert_eq. }
      rewrite Hrun.
      unfold runPendingStatements, forEachSeries. cbn [run].
      assert (read_rows loc2 w4 = batch) as ->.
      { unfold read_rows. rewrite Hheap, lookup_insert_eq. reflexivity. }
      destruct (execution_phase batch (statements w) w4) as (n & rows' & te & c & H).
      { rewrite Hst. reflexivity. }
      { exact (cr_ids _ _ _ _ _ _ HC). }
      cbv zeta in H. destruct H as (Ht & Hst' & Hm' & Htab' & Hheap' & Hcon' & HE).
      split_and!.
      * rewrite Htab', Htab. reflexivity.
      * rewrite Hheap', Hheap, Hheap3, insert_insert_eq.
        etransitivity; [exact Hsub0|]. apply insert_subseteq. exact Hfree2.
      * rewrite Hheap', Hheap, Hheap3, insert_insert_eq, lookup_insert_ne by exact Hne.
        apply lookup_insert_eq.
      * apply Migrated with k m batch err tc rows' n te c.
        -- exact Hk.
        -- exact Hnone.
        -- exact Hm.
        -- apply since_app. rewrite Ht, Htr. simpl. rewrite Hk, <- !app_assoc. reflexivity.
        -- rewrite Hm', Hmig. reflexivity.
        -- exact Hst'.
        -- rewrite Hcon', Hcon. reflexivity.
        -- exact HC.
        -- exact HE.
    + cbn [run]. unfold logError. cbn [run].
      assert (read_strings loc (record (EvMigrationCreate (normalize key) (Failed e)) w1) = items)
        as ->.
      { unfold read_strings. simpl. fold loc. rewrite lookup_insert_eq. reflexivity. }
      simpl. split_and!; [reflexivity | exact Hsub0 | apply lookup_insert_eq |].
      apply MigrationRejected with e; try reflexivity.
      * apply since_app. simpl. rewrite <- app_assoc. reflexivity.
      * unfold answer_find in Hfind. destruct (find_fault env w0 (normalize key)); [discriminate Hfind|].
        injection Hfind as Hfind. exact Hfind.
  - (* the lookup failed *)
    unfold unhandled. simpl. split_and!; [reflexivity | exact Hsub0 | apply lookup_insert_eq |].
    apply LookupFailed with e; try reflexivity.
    apply since_app. reflexivity.
Qed.

Lemma runOnce_anatomy key sqlStatements w :
  let w' := run env (runOnce key sqlStatements) w in
  tables w' = tables w /\ heap w ⊆ heap w' /\
  heap w' !! fresh_loc w = Some (working_copy sqlStatements w) /\
  RunOnce key (given_statements sqlStatements w) w w'.
Proof.
  destruct sqlStatements as [sql|l]; cbn [runOnce run working_copy given_statements].
  - apply (runOnce_after_copy key (StrArray [sql]) w).
  - rewrite <- strings_of_slice. apply (runOnce_after_copy key (slice l w) w).
Qed.

(** Events of the two phases are neither lookups nor Migration creations. *)
Lemma phase_events_in mid tc te ev :
  Forall (creation_event mid) tc -> Forall execution_event te -> In ev (tc ++ te) ->
  (exists sql res, ev = EvStatementCreate mid sql res) \/
  (exists sql res, ev = EvQuery sql res) \/ (exists row res, ev = EvSave row res).
Proof.
  intros Hc He Hin. apply in_app_or in Hin. destruct Hin as [Hin|Hin].
  - left. rewrite List.Forall_forall in Hc. exact (Hc _ Hin).
  - right. rewrite List.Forall_forall in He. exact (He _ Hin).
Qed.

End WithDriver.

(* ------------------------------------------------------------------ *)
(** ** Failures before the batch *)

(** C9. When the lookup of the Migration row itself fails, [runOnce] does
    nothing more: the failed lookup is the only request of the call, no
    Migration or Statement row is created, no SQL is executed and nothing
    is written to the console. *)
Theorem lookup_failure_is_silent env key sqlStatements w k e :
  let w' := run env (runOnce key sqlStatements) w in
  In (EvFind k (Failed e)) (since w w') ->
  since w w' = [EvFind (normalize key) (Failed e)] /\
  migrations w' = migrations w /\ statements w' = statements w /\
  console w' = console w /\ tables w' = tables w.
Proof.
  intros w' Hin.
  destruct (runOnce_anatomy env key sqlStatements w) as (Htab & _ & _ & Hrun).
  fold w' in Htab, Hrun.
  destruct Hrun as [e' Hs Hm Hst Hc | m Hs _ Hm Hst Hc | e' Hs _ Hm Hst Hc
                   | k' m batch err tc rows' n te c _ _ _ Hs _ _ _ HC HE].
  - rewrite Hs in Hin. destruct Hin as [Hin|[]]. injection Hin as _ <-.
    repeat split; assumption.
  - rewrite Hs in Hin. destruct Hin as [Hin|[]]. discriminate Hin.
  - rewrite Hs in Hin. destruct Hin as [Hin|[Hin|[]]]; discriminate Hin.
  - rewrite Hs in Hin. destruct Hin as [Hin|[Hin|Hin]]; try discriminate Hin.
    apply (phase_events_in _ _ _ _ (cr_events _ _ _ _ _ _ HC) (ex_events _ _ _ _ _ HE)) in Hin.
    destruct Hin as [(? & ? & Hin)|[(? & ? & Hin)|(? & ? & Hin)]]; discriminate Hin.
Qed.

Lemma lookup_failure_is_silent_witness :
  let w' := run driver_without_lookup (runOnce (Some "k") (OneStatement (Some "A")))
              empty_world in
  In (EvFind (Some "k") (Failed connection_lost)) (since empty_world w') /\
  since empty_world w' = [EvFind (normalize (Some "k")) (Failed connection_lost)] /\
  migrations w' = migrations empty_world /\ statements w' = statements empty_world /\
  console w' = console empty_world /\ tables w' = tables empty_world.
Proof.
  split.
  - vm_compute. left. reflexivity.
  - apply (lookup_failure_is_silent driver_without_lookup (Some "k")
             (OneStatement (Some "A")) empty_world (Some "k") connection_lost).
    vm_compute. left. reflexivity.
Defined.

(** C5. When the creation of the Migration row fails, whatever the reason,
    the failure is written to the console and the call ends there: the
    lookup and the failed creation are its only requests, so no Statement
    row is created and no SQL is executed. *)
Theorem migration_creation_failure env key sqlStatements w k e :
  let w' := run env (runOnce key sqlStatements) w in
  In (EvMigrationCreate k (Failed e)) (since w w') ->
  console w' = console w ++ [rejection_block key (given_statements sqlStatements w)] /\
  since w w' = [EvFind (normalize key) (Succeeded None);
                EvMigrationCreate (normalize key) (Failed e)] /\
  creation_requests (since w w') = [] /\ executed (since w w') = [] /\
  statements w' = statements w /\ migrations w' = migrations w.
Proof.
  intros w' Hin.
  destruct (runOnce_anatomy env key sqlStatements w) as (Htab & _ & _ & Hrun).
  fold w' in Htab, Hrun.
  destruct Hrun as [e' Hs Hm Hst Hc | m Hs _ Hm Hst Hc | e' Hs _ Hm Hst Hc
                   | k' m batch err tc rows' n te c _ _ _ Hs _ _ _ HC HE].
  - rewrite Hs in Hin. destruct Hin as [Hin|[]]. discriminate Hin.
  - rewrite Hs in Hin. destruct Hin as [Hin|[]]. discriminate Hin.
  - rewrite Hs in Hin |- *. destruct Hin as [Hin|[Hin|[]]]; [discriminate Hin|].
    injection Hin as _ <-. repeat split; assumption.
  - rewrite Hs in Hin. destruct Hin as [Hin|[Hin|Hin]]; try discriminate Hin.
    apply (phase_events_in _ _ _ _ (cr_events _ _ _ _ _ _ HC) (ex_events _ _ _ _ _ HE)) in Hin.
    destruct Hin as [(? & ? & Hin)|[(? & ? & Hin)|(? & ? & Hin)]]; discriminate Hin.
Qed.

Lemma migration_creation_failure_witness :
  let w' := run driver_without_insert (runOnce (Some "k") (OneStatement (Some "A")))
              empty_world in
  In (EvMigrationCreate (Some "k") (Failed connection_lost)) (since empty_world w') /\
  console w' = console empty_world
               ++ [rejection_block (Some "k")
                     (given_statements (OneStatement (Some "A")) empty_world)] /\
  since empty_world w' = [EvFind (normalize (Some "k")) (Succeeded None);
                          EvMigrationCreate (normalize (Some "k")) (Failed connection_lost)] /\
  creation_requests (since empty_world w') = [] /\ executed (since empty_world w') = [] /\
  statements w' = statements empty_world /\ migrations w' = migrations empty_world.
Proof.
  split.
  - vm_compute. right. left. reflexivity.
  - apply (migration_creation_failure driver_without_insert (Some "k")
             (OneStatement (Some "A")) empty_world (Some "k") connection_lost).
    vm_compute. right. left. reflexivity.
Defined.

(* ------------------------------------------------------------------ *)
(** ** Normalization *)

Lemma phase_events_quiet mid tc te :
  Forall (creation_event mid) tc -> Forall execution_event te ->
  keys_used (tc ++ te) = [] /\ created_migrations (tc ++ te) = [] /\
  creation_requests (tc ++ te) = creation_requests tc /\
  created (tc ++ te) = created tc /\
  executed (tc ++ te) = executed te /\ query_log (tc ++ te) = query_log te.
Proof.
  intros Hc He.
  destruct (creation_events_only _ _ Hc) as (H1 & H2 & H3 & H4 & H5).
  destruct (execution_events_only _ He) as (H6 & H7 & H8 & H9).
  unfold keys_used, created_migrations, creation_requests, created, executed, query_log in *.
  rewrite !omap_app, H1, H2, H4, H5, H6, H7, H8, H9, ?app_nil_r. repeat split.
Qed.

Lemma creation_requests_length mid t :
  Forall (creation_event mid) t -> List.length (creation_requests t) = List.length t.
Proof.
  induction 1 as [|e t (sql & res & ->) _ IH]; simpl; [reflexivity|].
  fold (creation_requests t). rewrite IH. reflexivity.
Qed.

(** C6. The key is normalized before it is used: the lookup, which every
    call makes first, and the creation of the Migration row carry
    [normalize key], which is [null] for an empty or absent key; a Migration
    row that the call stores has the normalized key as its key, and that is
    never the empty string; for an empty or absent key no row is stored. *)
Theorem key_is_normalized env key sqlStatements w :
  let w' := run env (runOnce key sqlStatements) w in
  let t := since w w' in
  (exists res rest, t = EvFind (normalize key) res :: rest) /\
  Forall (fun k => k = normalize key) (keys_used t) /\
  (key = None \/ key = Some "" -> normalize key = None) /\
  migrations w' = migrations w ++ created_migrations t /\
  Forall (fun m => Some (migration_key m) = normalize key /\ migration_key m <> "")
    (created_migrations t) /\
  (normalize key = None -> migrations w' = migrations w).
Proof.
  intros w' t.
  destruct (runOnce_anatomy env key sqlStatements w) as (_ & _ & _ & Hrun).
  fold w' in Hrun.
  assert (key = None \/ key = Some "" -> normalize key = None) as Hnull
    by apply normalize_None.
  destruct Hrun as [e' Hs Hm Hst Hc | m Hs _ Hm Hst Hc | e' Hs _ Hm Hst Hc
                   | k' m batch err tc rows' n te c Hk _ Hmk Hs Hm _ _ HC HE];
    subst t; rewrite Hs.
  - simpl. rewrite app_nil_r. split_and!; eauto; repeat constructor.
  - simpl. rewrite app_nil_r. split_and!; eauto; repeat constructor.
  - simpl. rewrite app_nil_r. split_and!; eauto; repeat constructor.
  - destruct (phase_events_quiet _ _ _ (cr_events _ _ _ _ _ _ HC) (ex_events _ _ _ _ _ HE))
      as (Hkeys & Hmigs & _).
    simpl. fold (keys_used (tc ++ te)). fold (created_migrations (tc ++ te)).
    rewrite Hkeys, Hmigs, Hk.
    split_and!.
    + eauto.
    + repeat constructor.
    + rewrite <- Hk. exact Hnull.
    + exact Hm.
    + constructor; [|constructor]. subst m. simpl. split; [reflexivity|].
      apply normalize_Some in Hk. tauto.
    + intros H. discriminate H.
Qed.

(** [runOnce("", "ALTER")] on an empty database: the lookup and the
    creation are made with [null], the creation is refused and logged, and
    no row is stored. *)
Example empty_key_is_refused :
  let w' := run reliable (runOnce (Some "") (OneStatement (Some "ALTER"))) empty_world in
  trace w' = [EvFind None (Succeeded None);
              EvMigrationCreate None (Failed (NotNullViolation "migration_key"))] /\
  migrations w' = [] /\
  console w' = [rejection_block (Some "") [Some "ALTER"]].
Proof. vm_compute. split_and!; reflexivity. Qed.

(** [runOnce("k", "")]: the Migration row is stored, the creation of the
    Statement row is requested with [null] and refused, and nothing is
    executed. *)
Example empty_statement_is_refused :
  let w' := run reliable (runOnce (Some "k") (OneStatement (Some ""))) empty_world in
  since empty_world w'
  = [EvFind (Some "k") (Succeeded None);
     EvMigrationCreate (Some "k") (Succeeded {| mig_id := 1; migration_key := "k" |});
     EvStatementCreate 1 None (Failed (NotNullViolation "sql_statement"))] /\
  statements w' = [] /\ executed (trace w') = [].
Proof. vm_compute. split_and!; reflexivity. Qed.

(** C10. Each SQL text is passed through [normalize] before its row is
    created: the creation requests carry the normalized statements, in
    order; a request whose statement is [null] (an empty or absent text) is
    refused on the not-null constraint of [sql_statement]; and no row with
    an empty [sql_statement] is inserted. *)
Theorem sql_is_normalized env key sqlStatements w :
  let w' := run env (runOnce key sqlStatements) w in
  let t := since w w' in
  let items := given_statements sqlStatements w in
  normalize (Some "") = None /\
  creation_requests t = map normalize (take (List.length (creation_requests t)) items) /\
  (forall mid res, In (EvStatementCreate mid None res) t ->
     res = Failed (NotNullViolation "sql_statement")) /\
  Forall (fun r => sql_statement r <> "") (created t) /\
  exists rows', statements w' = statements w ++ rows' /\
                Forall2 same_statement (created t) rows'.
Proof.
  intros w' t items. split; [reflexivity|].
  destruct (runOnce_anatomy env key sqlStatements w) as (_ & _ & _ & Hrun).
  fold w' items in Hrun.
  destruct Hrun as [e' Hs Hm Hst Hc | m Hs _ Hm Hst Hc | e' Hs _ Hm Hst Hc
                   | k' m batch err tc rows' n te c Hk _ Hmk Hs Hm Hst _ HC HE];
    subst t; rewrite Hs.
  - simpl. split_and!; auto.
    + intros mid res [H|[]]. discriminate H.
    + exists []. rewrite app_nil_r. split; [assumption|constructor].
  - simpl. split_and!; auto.
    + intros mid res [H|[]]. discriminate H.
    + exists []. rewrite app_nil_r. split; [assumption|constructor].
  - simpl. split_and!; auto.
    + intros mid res [H|[H|[]]]; discriminate H.
    + exists []. rewrite app_nil_r. split; [assumption|constructor].
  - pose proof (cr_events _ _ _ _ _ _ HC) as Hev.
    destruct (phase_events_quiet _ _ _ Hev (ex_events _ _ _ _ _ HE))
      as (_ & _ & Hreq & Hcr & _).
    simpl. fold (creation_requests (tc ++ te)). fold (created (tc ++ te)).
    rewrite Hreq, Hcr, (cr_created _ _ _ _ _ _ HC).
    split_and!.
    + rewrite (creation_requests_length _ _ Hev). exact (cr_requests _ _ _ _ _ _ HC).
    + intros mid res [H|[H|H]]; try discriminate H.
      apply in_app_or in H. destruct H as [H|H].
      * exact (cr_not_null _ _ _ _ _ _ HC _ _ H).
      * pose proof (ex_events _ _ _ _ _ HE) as Hex. rewrite List.Forall_forall in Hex.
        destruct (Hex _ H) as [(? & ? & Heq)|(? & ? & Heq)]; discriminate Heq.
    + eapply Forall_impl; [exact (cr_rows _ _ _ _ _ _ HC)|].
      intros r (_ & _ & _ & _ & Hr). exact Hr.
    + exists rows'. split; [exact Hst | exact (ex_rows _ _ _ _ _ HE)].
Qed.

(* ------------------------------------------------------------------ *)
(** ** Order of creation and execution *)

(** A query of the execution phase is followed at once by the [save()] of
    its row, also when the events of the whole call are counted. *)
Lemma serial_in_call mid e1 e2 tc te :
  Forall (creation_event mid) tc ->
  (forall sql res, e1 <> EvQuery sql res) -> (forall sql res, e2 <> EvQuery sql res) ->
  (forall i sql res, te !! i = Some (EvQuery sql res) ->
     exists row r, te !! S i = Some (EvSave row r) /\ sql_statement row = sql) ->
  forall i sql res, (e1 :: e2 :: tc ++ te) !! i = Some (EvQuery sql res) ->
    exists row r, (e1 :: e2 :: tc ++ te) !! S i = Some (EvSave row r) /\
                  sql_statement row = sql.
Proof.
  intros Hc H1 H2 Hser [|[|i]] sql res H; simpl in H.
  - injection H as H. destruct (H1 _ _ H).
  - injection H as H. destruct (H2 _ _ H).
  - apply lookup_app_Some in H. destruct H as [H|[Hle H]].
    + rewrite Forall_lookup in Hc. destruct (Hc _ _ H) as (? & ? & Heq). discriminate Heq.
    + apply Hser in H. destruct H as (row & r & H & Hsql).
      exists row, r. split; [|exact Hsql].
      simpl. rewrite lookup_app_r by lia.
      replace (S i - List.length tc) with (S (i - List.length tc)) by lia. exact H.
Qed.

(** C3. The Statement rows are created in the order of the input and
    executed in the order of their creation, one at a time: the rows the
    call inserts are, in order, rows for the first statements of the input;
    the SQL texts sent to the database are, in order, those of the first [n]
    of these rows, each followed by the [save()] of its row before the next
    is sent; a statement that fails is the last one sent, and every row
    after it still has the status "pending".  Nothing is left out on the
    way: the call looks the key up and, when there is no row for it, asks
    for the Migration row; once that row is inserted, a row is requested
    for every statement of the input up to the first one that is refused;
    and the statement of every created row is sent, unless the last
    statement sent failed or its row could not be saved. *)
Theorem statements_in_order env key sqlStatements w :
  let w' := run env (runOnce key sqlStatements) w in
  let t := since w w' in
  let items := given_statements sqlStatements w in
  exists rows' n,
    statements w' = statements w ++ rows' /\
    Forall2 same_statement (created t) rows' /\
    map (fun r => Some (sql_statement r)) (created t)
      = take (List.length (created t)) items /\
    ascending (max_list (map stmt_id (statements w))) (map stmt_id (created t)) /\
    n <= List.length (created t) /\
    executed t = map sql_statement (take n (created t)) /\
    (forall i sql res, t !! i = Some (EvQuery sql res) ->
       exists row r, t !! S i = Some (EvSave row r) /\ sql_statement row = sql) /\
    (forall i sql e, query_log t !! i = Some (sql, QueryFailed e) -> n = S i) /\
    (forall j r, n <= j -> rows' !! j = Some r -> status r = "pending") /\
    (exists res, t !! 0 = Some (EvFind (normalize key) res) /\
       (res = Succeeded None ->
        exists res', t !! 1 = Some (EvMigrationCreate (normalize key) res'))) /\
    (forall m, t !! 1 = Some (EvMigrationCreate (normalize key) (Succeeded m)) ->
       List.length (created t) = List.length items \/
       exists sql e,
         items !! List.length (created t) = Some sql /\
         t !! (2 + List.length (created t))
         = Some (EvStatementCreate (mig_id m) (normalize sql) (Failed e))) /\
    (n = List.length (created t) \/
     (exists sql e, last (query_log t) = Some (sql, QueryFailed e)) \/
     (exists row e, last t = Some (EvSave row (Failed e)))).
Proof.
  intros w' t items.
  destruct (runOnce_anatomy env key sqlStatements w) as (_ & _ & _ & Hrun).
  fold w' items in Hrun.
  destruct Hrun as [e' Hs Hm Hst Hc | m Hs _ Hm Hst Hc | e' Hs _ Hm Hst Hc
                   | k' m batch err tc rows' n te c Hk _ Hmk Hs Hm Hst _ HC HE];
    subst t; rewrite Hs.
  - exists [], 0. simpl. rewrite app_nil_r. split_and!; auto.
    + intros [|i] sql res H; discriminate H.
    + intros i sql e H; discriminate H.
    + intros j r _ H; discriminate H.
    + eexists. split; [reflexivity|]. intros H; discriminate H.
    + intros m H; discriminate H.
  - exists [], 0. simpl. rewrite app_nil_r. split_and!; auto.
    + intros [|i] sql res H; discriminate H.
    + intros i sql e H; discriminate H.
    + intros j r _ H; discriminate H.
    + eexists. split; [reflexivity|]. intros H; discriminate H.
    + intros m0 H; discriminate H.
  - exists [], 0. simpl. rewrite app_nil_r. split_and!; auto.
    + intros [|[|i]] sql res H; discriminate H.
    + intros i sql e H; discriminate H.
    + intros j r _ H; discriminate H.
    + eexists. split; [reflexivity|]. intros _. eexists. reflexivity.
    + intros m H; discriminate H.
  - pose proof (cr_events _ _ _ _ _ _ HC) as Hev.
    destruct (phase_events_quiet _ _ _ Hev (ex_events _ _ _ _ _ HE))
      as (_ & _ & _ & Hcr & Hex & Hql).
    exists rows', n. rewrite Hk. simpl.
    fold (created (tc ++ te)). fold (executed (tc ++ te)). fold (query_log (tc ++ te)).
    rewrite Hcr, Hex, Hql, (cr_created _ _ _ _ _ _ HC).
    split_and!.
    + exact Hst.
    + exact (ex_rows _ _ _ _ _ HE).
    + exact (cr_order _ _ _ _ _ _ HC).
    + exact (cr_ids _ _ _ _ _ _ HC).
    + exact (ex_count _ _ _ _ _ HE).
    + exact (ex_order _ _ _ _ _ HE).
    + apply (serial_in_call (mig_id m)); try exact Hev.
      * intros sql res H; discriminate H.
      * intros sql res H; discriminate H.
      * exact (ex_serial _ _ _ _ _ HE).
    + intros i sql e H. symmetry. exact (ex_halt _ _ _ _ _ HE _ _ _ H).
    + intros j r Hj Hr. rewrite (ex_untouched _ _ _ _ _ HE j Hj) in Hr.
      pose proof (cr_rows _ _ _ _ _ _ HC) as Hrows. rewrite Forall_lookup in Hrows.
      destruct (Hrows _ _ Hr) as (_ & Hstatus & _). exact Hstatus.
    + eexists. split; [reflexivity|]. intros _. eexists. reflexivity.
    + intros m0 Hm0. injection Hm0 as <-.
      destruct err as [e|].
      * right. destruct (cr_failure _ _ _ _ _ _ HC e eq_refl) as (sql & Hsql & Hfail).
        exists sql, e. split; [exact Hsql|].
        apply lookup_app_l_Some. exact Hfail.
      * left. exact (cr_complete _ _ _ _ _ _ HC eq_refl).
    + destruct (ex_progress _ _ _ _ _ HE) as [Hn|[(sql & e & Hq)|(row & e & Hsv)]].
      * left. exact Hn.
      * right. left. exists sql, e. exact Hq.
      * right. right. exists row, e. rewrite !last_cons, last_app, Hsv. reflexivity.
Qed.

(** The second of three statements fails: the first is marked "success",
    the second "failure" with the driver's code, the third is never sent
    and stays "pending". *)
Example second_of_three_fails :
  let w := set_heap (fun h => <[0 := StrArray [Some "S1"; Some "S2"; Some "S3"]]> h)
             empty_world in
  let w' := run (driver_rejecting [("S2", duplicate_column)])
              (runOnce (Some "three") (StatementArray 0)) w in
  executed (trace w') = ["S1"; "S2"] /\
  map (fun r => (sql_statement r, status r, error_code r)) (statements w')
  = [("S1", "success", None); ("S2", "failure", Some 1060%Z); ("S3", "pending", None)].
Proof. vm_compute. split; reflexivity. Qed.

(* ------------------------------------------------------------------ *)
(** ** A statement that fails *)

Lemma update_row_elsewhere row rows j r :
  rows !! j = Some r -> stmt_id r <> stmt_id row -> update_row row rows !! j = Some r.
Proof.
  intros Hj Hne. unfold update_row.
  change (map ?f rows) with (f <$> rows).
  rewrite list_lookup_fmap, Hj. simpl.
  destruct (Nat.eqb_spec (stmt_id r) (stmt_id row)); [contradiction|reflexivity].
Qed.

(** C4. Executing the first pending statement [st] of the array.  When its
    SQL fails with [error], the row gets status "failure" with [error_code]
    and [error_info] taken from [error], a block is written to the console,
    the row is saved, and that is all: the query and the save are the only
    requests, so no later statement is executed, and no row with another id
    is changed.  When its SQL succeeds, the row gets status "success" and
    is saved, and only after a successful save does the series go on with
    the statements that follow. *)
Theorem statement_failure_handling env array w st rest :
  read_rows array w = st :: rest ->
  let w' := run env (runPendingStatements array) w in
  let sql := sql_statement st in
  match query_result env w sql with
  | QueryFailed error =>
      let row := failed error st in
      status row = "failure" /\ error_code row = number error /\
      error_info row = Some error /\ same_statement st row /\
      console w' = console w ++ [failure_block error] /\
      exists res,
        since w w' = [EvQuery sql (QueryFailed error); EvSave row res] /\
        statements w' = match res with
                        | Succeeded _ => update_row row (statements w)
                        | Failed _ => statements w
                        end /\
        forall j r, statements w !! j = Some r -> stmt_id r <> stmt_id st ->
                    statements w' !! j = Some r
  | Rows rows =>
      let row := succeeded st in
      status row = "success" /\ same_statement st row /\
      exists res,
        match res with
        | Failed _ =>
            since w w' = [EvQuery sql (Rows rows); EvSave row res] /\
            statements w' = statements w /\ console w' = console w
        | Succeeded _ =>
            exists w1,
              w' = run env (series rest runPendingStatement unhandled) w1 /\
              since w w1 = [EvQuery sql (Rows rows); EvSave row res] /\
              statements w1 = update_row row (statements w) /\
              console w1 = console w
        end
  end.
Proof.
  intros Hrows w' sql. subst w'.
  unfold runPendingStatements, forEachSeries. cbn [run]. rewrite Hrows.
  rewrite runPendingStatement_round. cbv zeta. fold sql.
  destruct (query_result env w sql) as [rows|error].
  - split_and!; [reflexivity | repeat split |].
    destruct (save_fault env _ (succeeded st)) as [e'|].
    + exists (Failed e'). split_and!; try reflexivity.
      apply since_app. simpl. rewrite <- app_assoc. reflexivity.
    + exists (Succeeded tt). eexists. split_and!; try reflexivity.
      apply since_app. simpl. rewrite <- app_assoc. reflexivity.
  - split_and!; [reflexivity | reflexivity | reflexivity | repeat split | |].
    + destruct (save_fault env _ (failed error st)); reflexivity.
    + destruct (save_fault env _ (failed error st)) as [e'|].
      * exists (Failed e'). split_and!; try reflexivity.
        -- apply since_app. simpl. rewrite <- app_assoc. reflexivity.
        -- intros j r Hj _. exact Hj.
      * exists (Succeeded tt). split_and!; try reflexivity.
        -- apply since_app. simpl. rewrite <- app_assoc. reflexivity.
        -- intros j r Hj Hne. simpl. apply update_row_elsewhere; assumption.
Qed.

Lemma statement_failure_handling_witness :
  let env := driver_rejecting [("S1", duplicate_column)] in
  let w' := run env (runPendingStatements 0) two_pending in
  exists st rest,
    read_rows 0 two_pending = st :: rest /\
    console w' = [failure_block duplicate_column] /\
    executed (since two_pending w') = ["S1"] /\
    map (fun r => (sql_statement r, status r, error_code r)) (statements w')
    = [("S1", "failure", Some 1060%Z); ("S2", "pending", None)].
Proof.
  intros env w'.
  eexists _, _. split; [reflexivity|].
  pose proof (statement_failure_handling env 0 two_pending _ _ eq_refl) as H.
  cbv zeta in H. fold w' in H.
  change (query_result env two_pending _) with (QueryFailed duplicate_column) in H.
  destruct H as (_ & _ & _ & _ & Hc & res & Hs & Hst & _).
  split; [exact Hc|]. split; [rewrite Hs; reflexivity|].
  vm_compute. reflexivity.
Defined.

(* ------------------------------------------------------------------ *)
(** ** Calling [runOnce] twice *)

Lemma find_none_filter (key : JsStr) ms :
  find_migration key ms = None -> rows_with_key key ms = [].
Proof.
  unfold find_migration, rows_with_key, has_key. destruct key as [k|].
  - induction ms as [|m ms IH]; simpl; [reflexivity|].
    destruct (String.eqb (migration_key m) k); [intros H; discriminate H|exact IH].
  - intros _. induction ms as [|m ms IH]; simpl; [reflexivity|exact IH].
Qed.

Lemma find_after_insert k ms m :
  migration_key m = k -> exists m', find_migration (Some k) (ms ++ [m]) = Some m'.
Proof.
  intros Hk. unfold find_migration. induction ms as [|x ms IH]; simpl.
  - rewrite Hk, String.eqb_refl. eauto.
  - destruct (String.eqb (migration_key x) k); eauto.
Qed.

Lemma same_statements_columns batch rows' mid :
  Forall2 same_statement batch rows' ->
  Forall (pending_row mid) batch ->
  map (fun r => Some (sql_statement r)) rows' = map (fun r => Some (sql_statement r)) batch /\
  Forall (fun r => migration_id r = mid) rows'.
Proof.
  induction 1 as [|r r' batch rows' (_ & Hm & Hs) _ IH]; intros Hp.
  - split; constructor.
  - apply Forall_cons_1 in Hp. destruct Hp as [(Hmid & _) Hp].
    destruct (IH Hp) as [IH1 IH2]. split.
    + simpl. rewrite Hs, IH1. reflexivity.
    + constructor; [congruence | exact IH2].
Qed.

(** A call on a database that has a Migration row with the key does
    nothing but look that row up. *)
Lemma runOnce_again env key sqlStatements w m :
  find_migration (normalize key) (migrations w) = Some m ->
  let w' := run env (runOnce key sqlStatements) w in
  migrations w' = migrations w /\ statements w' = statements w /\
  console w' = console w /\ exists res, since w w' = [EvFind (normalize key) res].
Proof.
  intros Hfind w'.
  destruct (runOnce_anatomy env key sqlStatements w) as (_ & _ & _ & Hrun).
  fold w' in Hrun.
  destruct Hrun as [e' Hs Hm Hst Hc | m' Hs _ Hm Hst Hc | e' Hs Hnone Hm Hst Hc
                   | k' m' batch err tc rows' n te c Hk Hnone _ Hs _ _ _ HC HE].
  - eauto 10.
  - eauto 10.
  - rewrite Hfind in Hnone. discriminate Hnone.
  - rewrite Hk, Hnone in Hfind. discriminate Hfind.
Qed.

(** C2, as the code has it.  When the first call inserted its Migration row
    (the key is not empty and was not present, the lookup and the insertion
    succeeded), a second call made after the first has come to rest finds
    that row and does nothing: [idempotent] holds. *)
Theorem runOnce_twice env key sqlStatements w :
  created_migrations (since w (run env (runOnce key sqlStatements) w)) <> [] ->
  idempotent env key sqlStatements w.
Proof.
  intros Hcreated. unfold idempotent.
  set (w1 := run env (runOnce key sqlStatements) w) in *.
  destruct (runOnce_anatomy env key sqlStatements w) as (_ & _ & _ & Hrun).
  fold w1 in Hrun.
  destruct Hrun as [e' Hs Hm Hst Hc | m' Hs _ Hm Hst Hc | e' Hs Hnone Hm Hst Hc
                   | k m batch err tc rows' n te c Hk Hnone Hmk Hs Hm Hst _ HC HE];
    try (rewrite Hs in Hcreated; simpl in Hcreated; contradiction).
  assert (migration_key m = k) as Hkey by (subst m; reflexivity).
  destruct (find_after_insert k (migrations w) m Hkey) as (m' & Hfound).
  rewrite <- Hm, <- Hk in Hfound.
  destruct (runOnce_again env key sqlStatements w1 m' Hfound)
    as (Hm2 & Hst2 & Hc2 & res & Hs2).
  cbv zeta. rewrite Hm2, Hst2, Hc2, Hs2.
  split_and!; try reflexivity.
  exists m. split.
  - rewrite Hm, Hk. unfold rows_with_key. rewrite List.filter_app.
    fold (rows_with_key (Some k) (migrations w)).
    rewrite (find_none_filter _ _ Hnone). simpl. rewrite Hkey, String.eqb_refl. reflexivity.
  - exists rows'.
    destruct (same_statements_columns _ _ _ (ex_rows _ _ _ _ _ HE) (cr_rows _ _ _ _ _ _ HC))
      as [Hsql Hmid].
    split_and!; [exact Hst | exact Hmid |].
    rewrite Hsql, (cr_order _ _ _ _ _ _ HC).
    exists (drop (List.length batch) (given_statements sqlStatements w)).
    symmetry. apply take_drop.
Qed.

Lemma runOnce_twice_witness :
  created_migrations
    (since empty_world
       (run reliable (runOnce (Some "add_col") (OneStatement (Some "ALTER"))) empty_world))
  <> [] /\
  idempotent reliable (Some "add_col") (OneStatement (Some "ALTER")) empty_world.
Proof.
  assert (created_migrations
            (since empty_world
               (run reliable (runOnce (Some "add_col") (OneStatement (Some "ALTER")))
                  empty_world)) <> []) as H
    by (vm_compute; intros H; discriminate H).
  split; [exact H|].
  exact (runOnce_twice reliable (Some "add_col") (OneStatement (Some "ALTER")) empty_world H).
Defined.

(** C2, as the specification has it, fails for the empty key: the key is
    normalized to [null], the not-null constraint refuses the row, and
    after two calls there is no Migration row at all. *)
Lemma runOnce_twice_empty_key :
  ~ idempotent reliable (Some "") (OneStatement (Some "ALTER")) empty_world.
Proof.
  unfold idempotent. intros ((m & Hm & _) & _).
  vm_compute in Hm. discriminate Hm.
Qed.

(** Two overlapping calls for one key, as [runAllOnce] makes them: both
    lookups are answered before either row is inserted, the second insertion
    is refused by the unique constraint and logged, and the statement is
    executed once. *)
Example overlapping_calls_race :
  let call := (Some "k", OneStatement (Some "A")) in
  option_map
    (fun c => (migrations (fst c), executed (trace (fst c)), console (fst c),
               created_migrations (trace (fst c)), List.length (snd c)))
    (steps reliable [0; 0; 0; 0; 0; 0; 0] (turn (runAllOnce [call; call]) empty_world))
  = Some ([{| mig_id := 1; migration_key := "k" |}], ["A"],
          [rejection_block (Some "k") [Some "A"]],
          [{| mig_id := 1; migration_key := "k" |}], 0).
Proof. vm_compute. reflexivity. Qed.

(* ------------------------------------------------------------------ *)
(** ** A failed creation in the middle of a batch *)

(** C1. [runOnce("k", ["A", "", "B"])]: the creation of the second row fails
    (its statement is normalized to [null]) and no creation is requested for
    "B"; but the final callback of the series passes the rows created so
    far on to [runPendingStatements], whatever the series reports, and "A",
    created before the failure, is executed and marked "success". *)
Theorem failed_creation_does_not_stop_execution :
  let w' := run reliable (runOnce (Some "k") (StatementArray 0)) three_statements in
  creation_requests (trace w') = [Some "A"; None] /\
  In (EvStatementCreate 1 None (Failed (NotNullViolation "sql_statement"))) (trace w') /\
  executed (trace w') = ["A"] /\
  map (fun r => (sql_statement r, status r)) (statements w') = [("A", "success")] /\
  console w' = [].
Proof.
  vm_compute. split_and!; try reflexivity.
  right. right. right. left. reflexivity.
Qed.

(** X11. The same for every database: when the creation of a row fails
    after other rows of the batch were created, the first of these is
    executed all the same. *)
Lemma created_rows_are_executed_after_a_failure env key sqlStatements w mid sql e :
  let t := since w (run env (runOnce key sqlStatements) w) in
  In (EvStatementCreate mid sql (Failed e)) t ->
  forall r rest, created t = r :: rest ->
    exists later, executed t = sql_statement r :: later.
Proof.
  intros t Hin r rest Hcreated. subst t.
  destruct (runOnce_anatomy env key sqlStatements w) as (_ & _ & _ & Hrun).
  destruct Hrun as [e' Hs Hm Hst Hc | m Hs _ Hm Hst Hc | e' Hs _ Hm Hst Hc
                   | k' m batch err tc rows' n te c Hk _ Hmk Hs Hm Hst _ HC HE];
    rewrite Hs in Hcreated |- *; try discriminate Hcreated.
  destruct (phase_events_quiet _ _ _ (cr_events _ _ _ _ _ _ HC) (ex_events _ _ _ _ _ HE))
    as (_ & _ & _ & Hcr & Hex & _).
  simpl in Hcreated |- *.
  fold (created (tc ++ te)) in Hcreated. fold (executed (tc ++ te)).
  rewrite Hcr, (cr_created _ _ _ _ _ _ HC) in Hcreated.
  rewrite Hex, (ex_order _ _ _ _ _ HE), Hcreated.
  assert (1 <= n) as Hn.
  { apply (ex_started _ _ _ _ _ HE). rewrite Hcreated. intros H. discriminate H. }
  destruct n as [|n]; [inversion Hn|]. simpl. eauto.
Qed.

(* ------------------------------------------------------------------ *)
(** ** [bootstrap] *)

Lemma create_if_absent_in table ts : In table (create_if_absent table ts).
Proof.
  unfold create_if_absent. destruct (existsb (String.eqb table) ts) eqn:E.
  - apply existsb_exists in E. destruct E as (x & Hx & Heq).
    apply String.eqb_eq in Heq. subst x. exact Hx.
  - apply in_or_app. right. left. reflexivity.
Qed.

Lemma create_if_absent_keeps table ts x : In x ts -> In x (create_if_absent table ts).
Proof.
  unfold create_if_absent. destruct (existsb (String.eqb table) ts); [tauto|].
  intros H. apply in_or_app. left. exact H.
Qed.

Lemma steps_none env w schedule c :
  steps env schedule (w, []) = Some c -> schedule = [] /\ c = (w, []).
Proof.
  destruct schedule as [|i rest]; simpl.
  - intros H. injection H as <-. split; reflexivity.
  - intros H. discriminate H.
Qed.

Lemma step_sync_succeeds env table success error w rest :
  sync_fault env w table = None ->
  step env 0 (w, Sync table success error :: rest)
  = Some (fst (turn success (record (EvSync table (Succeeded tt))
                              (set_tables (create_if_absent table) w))),
          rest ++ snd (turn success (record (EvSync table (Succeeded tt))
                                       (set_tables (create_if_absent table) w)))).
Proof.
  intros H. simpl. unfold answer_sync. rewrite H.
  destruct (turn success _) as [w' new]. reflexivity.
Qed.

Lemma step_sync_fails env table success error w rest e :
  sync_fault env w table = Some e ->
  step env 0 (w, Sync table success error :: rest)
  = Some (fst (turn (error e) (record (EvSync table (Failed e)) w)),
          rest ++ snd (turn (error e) (record (EvSync table (Failed e)) w))).
Proof.
  intros H. simpl. unfold answer_sync. rewrite H.
  destruct (turn (error e) _) as [w' new]. reflexivity.
Qed.

Lemma steps_single_step env r w schedule c c1 :
  step env 0 (w, [r]) = Some c1 ->
  steps env schedule (w, [r]) = Some c ->
  schedule = [] /\ c = (w, [r]) \/
  exists rest, schedule = 0 :: rest /\ steps env rest c1 = Some c.
Proof.
  intros Hstep. destruct schedule as [|[|i] rest]; cbn [steps].
  - intros H. injection H as <-. left. split; reflexivity.
  - rewrite Hstep. intros H. right. exists rest. split; [reflexivity|exact H].
  - simpl. intros H. discriminate H.
Qed.

(** C8. [bootstrap(callback)] asks for the two relations one after the
    other.  When the creation of the first or of the second fails, the
    failure is written to the console and nothing is pending any more:
    whatever the schedule, the run ends in a world the callback had no part
    in.  When both succeed, the turn that handles the second success issues
    the constraint check and then invokes the callback: every run passes
    through the configuration in which both relations exist, the callback's
    turn has run, and the constraint check is still pending, unanswered. *)
Theorem bootstrap_callback_contract env callback w :
  let c0 := turn (bootstrap (Some callback)) w in
  match sync_fault env w "Migrations" with
  | Some e =>
      let w' := print (sync_failure_block "Failed to run Migration.sync" e)
                  (record (EvSync "Migrations" (Failed e)) w) in
      steps env [0] c0 = Some (w', []) /\
      forall schedule c, steps env schedule c0 = Some c -> c = c0 \/ c = (w', [])
  | None =>
      let w1 := record (EvSync "Migrations" (Succeeded tt))
                  (set_tables (create_if_absent "Migrations") w) in
      match sync_fault env w1 "MigrationStatements" with
      | Some e =>
          let w' := print (sync_failure_block "Failed to run MigrationStatement.sync" e)
                      (record (EvSync "MigrationStatements" (Failed e)) w1) in
          steps env [0; 0] c0 = Some (w', []) /\
          forall schedule c, steps env schedule c0 = Some c ->
            fst c = w \/ fst c = w1 \/ c = (w', [])
      | None =>
          let w2 := record (EvSync "MigrationStatements" (Succeeded tt))
                      (set_tables (create_if_absent "MigrationStatements") w1) in
          let c2 := (fst (turn callback w2), constraint_check :: snd (turn callback w2)) in
          In "Migrations" (tables w2) /\ In "MigrationStatements" (tables w2) /\
          since w w2 = [EvSync "Migrations" (Succeeded tt);
                        EvSync "MigrationStatements" (Succeeded tt)] /\
          steps env [0; 0] c0 = Some c2 /\
          forall schedule c, steps env schedule c0 = Some c ->
            2 <= List.length schedule ->
            exists rest, schedule = 0 :: 0 :: rest /\ steps env rest c2 = Some c
      end
  end.
Proof.
  intros c0. subst c0. unfold bootstrap. cbn [turn].
  destruct (sync_fault env w "Migrations") as [e|] eqn:H1; cbv zeta.
  - (* Migration.sync fails *)
    match goal with |- context [Sync "Migrations" ?s ?f] =>
      pose proof (step_sync_fails env _ s f _ [] _ H1) as Hstep end.
    cbn [turn logError fst snd app] in Hstep.
    split.
    + cbn [steps]. rewrite Hstep. reflexivity.
    + intros schedule c H.
      destruct (steps_single_step _ _ _ _ _ _ Hstep H) as [[_ ->]|(rest & _ & H')];
        [left; reflexivity|].
      apply steps_none in H'. right. tauto.
  - set (w1 := record (EvSync "Migrations" (Succeeded tt))
                 (set_tables (create_if_absent "Migrations") w)).
    match goal with |- context [Sync "Migrations" ?s ?f] =>
      pose proof (step_sync_succeeds env _ s f _ [] H1) as Hstep1 end.
    cbn [turn logError fst snd app] in Hstep1. fold w1 in Hstep1.
    destruct (sync_fault env w1 "MigrationStatements") as [e|] eqn:H2.
    + (* MigrationStatement.sync fails *)
      match type of Hstep1 with context [Sync "MigrationStatements" ?s ?f] =>
        pose proof (step_sync_fails env _ s f _ [] _ H2) as Hstep2 end.
      cbn [turn logError fst snd app] in Hstep2.
      split.
      * cbn [steps]. rewrite Hstep1. rewrite Hstep2. reflexivity.
      * intros schedule c H.
        destruct (steps_single_step _ _ _ _ _ _ Hstep1 H) as [[_ ->]|(rest & _ & H')];
          [left; reflexivity|].
        destruct (steps_single_step _ _ _ _ _ _ Hstep2 H') as [[_ ->]|(rest' & _ & H'')];
          [right; left; reflexivity|].
        apply steps_none in H''. right. right. tauto.
    + (* both relations exist *)
      set (w2 := record (EvSync "MigrationStatements" (Succeeded tt))
                   (set_tables (create_if_absent "MigrationStatements") w1)).
      match type of Hstep1 with context [Sync "MigrationStatements" ?s ?f] =>
        pose proof (step_sync_succeeds env _ s f _ [] H2) as Hstep2 end.
      cbn [app turn] in Hstep2. fold w2 in Hstep2.
      unfold constraint_check.
      destruct (turn callback w2) as [w3 l].
      cbn [fst snd] in Hstep2 |- *.
      split_and!.
      * simpl. apply create_if_absent_keeps, create_if_absent_in.
      * simpl. apply create_if_absent_in.
      * apply since_app. simpl. rewrite <- app_assoc. reflexivity.
      * cbn [steps]. rewrite Hstep1. rewrite Hstep2. reflexivity.
      * intros schedule c H Hlen.
        destruct (steps_single_step _ _ _ _ _ _ Hstep1 H) as [[-> _]|(rest & -> & H')];
          [simpl in Hlen; lia|].
        destruct (steps_single_step _ _ _ _ _ _ Hstep2 H') as [[-> _]|(rest' & -> & H'')];
          [simpl in Hlen; lia|].
        exists rest'. split; [reflexivity|exact H''].
Qed.

(* ------------------------------------------------------------------ *)
(** ** Further properties: [normalize] *)

(** X1. [normalize] is idempotent; its result is [null] exactly for the
    values [isEmpty] accepts, and is never the empty string; a string with
    at least one character is returned as it is. *)
Theorem normalize_fixes_nonempty str :
  normalize (normalize str) = normalize str /\
  (normalize str = None <-> isEmpty str = true) /\
  normalize str <> Some "" /\
  (forall c s, str = Some (String c s) -> normalize str = str).
Proof.
  destruct str as [[|c s]|]; unfold normalize; simpl; split_and!;
    try reflexivity; try (split; intros H; try reflexivity; discriminate H);
    try (intros H; discriminate H); try (intros c' s' H; discriminate H).
Qed.

(* ------------------------------------------------------------------ *)
(** ** Further properties: the key decides *)

(** X2. When a Migration row with the normalized key exists, [runOnce]
    does nothing but look it up, whatever statements it is given: no row is
    inserted or changed, no SQL is executed, nothing is written to the
    console. *)
Theorem existing_key_blocks_the_call env key sqlStatements w m :
  find_migration (normalize key) (migrations w) = Some m ->
  let w' := run env (runOnce key sqlStatements) w in
  migrations w' = migrations w /\ statements w' = statements w /\
  console w' = console w /\ tables w' = tables w /\
  executed (since w w') = [] /\ creation_requests (since w w') = [] /\
  created_migrations (since w w') = [] /\
  exists res, since w w' = [EvFind (normalize key) res].
Proof.
  intros Hfind w'.
  destruct (runOnce_anatomy env key sqlStatements w) as (Htab & _ & _ & Hrun).
  fold w' in Htab, Hrun.
  destruct Hrun as [e' Hs Hm Hst Hc | m' Hs _ Hm Hst Hc | e' Hs Hnone Hm Hst Hc
                   | k' m' batch err tc rows' n te c Hk Hnone _ Hs _ _ _ HC HE].
  - rewrite Hs. split_and!; eauto.
  - rewrite Hs. split_and!; eauto.
  - rewrite Hfind in Hnone. discriminate Hnone.
  - rewrite Hk, Hnone in Hfind. discriminate Hfind.
Qed.

Lemma existing_key_blocks_the_call_witness :
  find_migration (normalize (Some "add_col")) (migrations after_add_col)
  = Some {| mig_id := 1; migration_key := "add_col" |} /\
  let w' := run reliable (runOnce (Some "add_col") (OneStatement (Some "DROP")))
              after_add_col in
  migrations w' = migrations after_add_col /\ statements w' = statements after_add_col /\
  console w' = console after_add_col /\ tables w' = tables after_add_col /\
  executed (since after_add_col w') = [] /\
  creation_requests (since after_add_col w') = [] /\
  created_migrations (since after_add_col w') = [] /\
  exists res, since after_add_col w' = [EvFind (normalize (Some "add_col")) res].
Proof.
  split; [reflexivity|].
  apply (existing_key_blocks_the_call reliable (Some "add_col")
           (OneStatement (Some "DROP")) after_add_col
           {| mig_id := 1; migration_key := "add_col" |}).
  reflexivity.
Defined.

(** X3. A migration is never retried.  Once a call has inserted its
    Migration row, any later call with the same key, whatever its
    statements and whatever became of the statements of the first call,
    leaves both tables and the console as they are and executes nothing. *)
Theorem migration_is_not_retried env key sqlStatements sqlStatements' w :
  let w1 := run env (runOnce key sqlStatements) w in
  created_migrations (since w w1) <> [] ->
  let w2 := run env (runOnce key sqlStatements') w1 in
  migrations w2 = migrations w1 /\ statements w2 = statements w1 /\
  console w2 = console w1 /\ executed (since w1 w2) = [] /\
  creation_requests (since w1 w2) = [].
Proof.
  intros w1 Hcreated w2.
  destruct (runOnce_anatomy env key sqlStatements w) as (_ & _ & _ & Hrun).
  fold w1 in Hrun.
  destruct Hrun as [e' Hs Hm Hst Hc | m' Hs _ Hm Hst Hc | e' Hs Hnone Hm Hst Hc
                   | k m batch err tc rows' n te c Hk Hnone Hmk Hs Hm Hst _ HC HE];
    try (rewrite Hs in Hcreated; simpl in Hcreated; contradiction).
  assert (migration_key m = k) as Hkey by (subst m; reflexivity).
  destruct (find_after_insert k (migrations w) m Hkey) as (m' & Hfound).
  rewrite <- Hm, <- Hk in Hfound.
  destruct (runOnce_anatomy env key sqlStatements' w1) as (_ & _ & _ & Hrun2).
  fold w2 in Hrun2.
  destruct Hrun2 as [e' Hs2 Hm2 Hst2 Hc2 | m2 Hs2 _ Hm2 Hst2 Hc2 | e' Hs2 Hnone2 Hm2 Hst2 Hc2
                    | k2 m2 batch2 err2 tc2 rows2 n2 te2 c2 Hk2 Hnone2 _ Hs2 _ _ _ _ _].
  - rewrite Hs2. split_and!; auto.
  - rewrite Hs2. split_and!; auto.
  - rewrite Hfound in Hnone2. discriminate Hnone2.
  - rewrite Hk2, Hnone2 in Hfound. discriminate Hfound.
Qed.

Lemma migration_is_not_retried_witness :
  let env := driver_rejecting [("S1", duplicate_column)] in
  let w1 := run env (runOnce (Some "k") (OneStatement (Some "S1"))) empty_world in
  created_migrations (since empty_world w1) <> [] /\
  map status (statements w1) = ["failure"] /\
  let w2 := run env (runOnce (Some "k") (OneStatement (Some "S2"))) w1 in
  migrations w2 = migrations w1 /\ statements w2 = statements w1 /\
  console w2 = console w1 /\ executed (since w1 w2) = [] /\
  creation_requests (since w1 w2) = [].
Proof.
  intros env w1.
  assert (created_migrations (since empty_world w1) <> []) as H
    by (vm_compute; intros H; discriminate H).
  split; [exact H|]. split; [vm_compute; reflexivity|].
  exact (migration_is_not_retried env (Some "k") (OneStatement (Some "S1"))
           (OneStatement (Some "S2")) empty_world H).
Defined.

(* ------------------------------------------------------------------ *)
(** ** Further properties: the tables stay well formed *)

Lemma find_none_not_in k ms :
  find_migration (Some k) ms = None -> k ∉ map migration_key ms.
Proof.
  unfold find_migration. induction ms as [|m ms IH]; simpl.
  - intros _ H. inversion H.
  - destruct (String.eqb_spec (migration_key m) k) as [Heq|Hne]; [intros H; discriminate H|].
    intros H Hin. apply elem_of_cons in Hin. destruct Hin as [Hin|Hin].
    + congruence.
    + exact (IH H Hin).
Qed.

Lemma ascending_NoDup bound ids : ascending bound ids -> NoDup ids.
Proof.
  revert bound. induction ids as [|i ids IH]; intros bound H; simpl in *.
  - constructor.
  - destruct H as [_ H]. constructor; [|exact (IH _ H)].
    intros Hin. apply ascending_above in H. rewrite Forall_forall in H.
    specialize (H _ Hin). lia.
Qed.

Lemma same_statement_ids batch rows' :
  Forall2 same_statement batch rows' -> map stmt_id rows' = map stmt_id batch.
Proof.
  induction 1 as [|r r' batch rows' (Hid & _) _ IH]; simpl; [reflexivity|].
  rewrite Hid, IH. reflexivity.
Qed.

(** X4. [runOnce] keeps the bookkeeping tables well formed, whatever the
    database answers: Migration keys stay unique and non-empty, the ids of
    both tables stay unique, and every Statement row has a non-empty
    statement and refers to a Migration row that exists. *)
Theorem runOnce_keeps_tables_well_formed env key sqlStatements w :
  WellFormed w -> WellFormed (run env (runOnce key sqlStatements) w).
Proof.
  intros [Hkeys Hne Hmids Hsids Hrefs Hsql].
  set (w' := run env (runOnce key sqlStatements) w).
  destruct (runOnce_anatomy env key sqlStatements w) as (_ & _ & _ & Hrun).
  fold w' in Hrun.
  destruct Hrun as [e' Hs Hm Hst Hc | m' Hs _ Hm Hst Hc | e' Hs Hnone Hm Hst Hc
                   | k m batch err tc rows' n te c Hk Hnone Hmk Hs Hm Hst _ HC HE].
  1-3: constructor; rewrite ?Hm, ?Hst; assumption.
  assert (migration_key m = k /\ mig_id m = next_id (map mig_id (migrations w)))
    as [Hkey Hid] by (subst m; split; reflexivity).
  destruct (same_statements_columns _ _ _ (ex_rows _ _ _ _ _ HE) (cr_rows _ _ _ _ _ _ HC))
    as [Hsqls Hmid].
  pose proof (same_statement_ids _ _ (ex_rows _ _ _ _ _ HE)) as Hids.
  pose proof (cr_ids _ _ _ _ _ _ HC) as Hasc.
  constructor; rewrite ?Hm, ?Hst, ?map_app; simpl.
  - apply NoDup_app. split_and!; [exact Hkeys | | apply NoDup_singleton].
    intros x Hx Hin. apply list_elem_of_singleton in Hin. subst x.
    rewrite Hkey in Hx. exact (find_none_not_in _ _ Hnone Hx).
  - apply Forall_app. split; [exact Hne|].
    constructor; [|constructor]. rewrite Hkey. apply normalize_Some in Hk. tauto.
  - apply NoDup_app. split_and!; [exact Hmids | | apply NoDup_singleton].
    intros x Hx Hin. apply list_elem_of_singleton in Hin. subst x.
    apply max_list_elem_of_le in Hx. rewrite Hid in Hx. unfold next_id in Hx. lia.
  - rewrite Hids. apply NoDup_app. split_and!; [exact Hsids | | exact (ascending_NoDup _ _ Hasc)].
    intros x Hx Hin. apply max_list_elem_of_le in Hx.
    apply ascending_above in Hasc. rewrite Forall_forall in Hasc.
    specialize (Hasc _ Hin). lia.
  - apply Forall_app. split.
    + eapply Forall_impl; [exact Hrefs|]. simpl. intros r Hr.
      apply in_or_app. left. exact Hr.
    + eapply Forall_impl; [exact Hmid|]. simpl. intros r Hr.
      apply in_or_app. right. left. symmetry. exact Hr.
  - apply Forall_app. split; [exact Hsql|].
    pose proof (cr_rows _ _ _ _ _ _ HC) as Hrows.
    pose proof (ex_rows _ _ _ _ _ HE) as Hsame.
    clear - Hrows Hsame. induction Hsame as [|r r' batch rows' (_ & _ & Hs) _ IH].
    * constructor.
    * apply Forall_cons_1 in Hrows. destruct Hrows as [(_ & _ & _ & _ & Hr) Hrows].
      constructor; [rewrite Hs; exact Hr | exact (IH Hrows)].
Qed.

Lemma runOnce_keeps_tables_well_formed_witness :
  WellFormed after_add_col /\
  WellFormed (run reliable (runOnce (Some "k") (OneStatement (Some "A"))) after_add_col).
Proof.
  assert (WellFormed after_add_col) as H.
  { constructor; simpl.
    - apply NoDup_singleton.
    - constructor; [intros H; discriminate H | constructor].
    - apply NoDup_singleton.
    - constructor.
    - constructor.
    - constructor. }
  split; [exact H|].
  exact (runOnce_keeps_tables_well_formed reliable (Some "k") (OneStatement (Some "A"))
           after_add_col H).
Defined.

(* ------------------------------------------------------------------ *)
(** ** Further properties: what [runPendingStatements] leaves in the table *)

(** The execution phase when every [save()] succeeds: the statements are
    sent in order until one fails or none is left, and each one that was
    sent has its row rewritten after the answer. *)
Lemma execution_outcomes env rows :
  (forall w row, save_fault env w row = None) ->
  forall pre w,
    statements w = pre ++ rows ->
    ascending (max_list (map stmt_id pre)) (map stmt_id rows) ->
    exists answers,
      let w' := run env (series rows runPendingStatement unhandled) w in
      query_log (since w w') = zip (map sql_statement rows) answers /\
      executed (since w w') = take (List.length answers) (map sql_statement rows) /\
      creation_requests (since w w') = [] /\
      statements w' = pre ++ apply_answers answers rows /\
      console w' = console w ++ omap failure_of answers /\
      ((List.length answers = List.length rows /\ Forall is_rows answers) \/
       exists before e, answers = before ++ [QueryFailed e] /\ Forall is_rows before) /\
      Forall (fun a => exists w0 sql, query_result env w0 sql = a) answers /\
      migrations w' = migrations w /\ tables w' = tables w /\
      exists t, trace w' = trace w ++ t.
Proof.
  intros Hsave. induction rows as [|st rest IH]; intros pre w Hst Hasc.
  - exists []. cbn [series run unhandled].
    assert (since w w = []) as -> by (apply since_app; symmetry; apply app_nil_r).
    simpl. rewrite app_nil_r in Hst. rewrite !app_nil_r.
    split_and!; auto. exists []. symmetry. apply app_nil_r.
  - rewrite runPendingStatement_round. cbv zeta.
    simpl in Hasc. destruct Hasc as [Hlt Hasc].
    pose proof (ids_below_max pre _ Hlt) as Hpre.
    pose proof (ids_above rest _ Hasc) as Hpost.
    destruct (query_result env w (sql_statement st)) as [rs|error] eqn:Hq.
    + rewrite Hsave.
      set (w2 := record _ (set_statements _ _)).
      destruct (IH (pre ++ [succeeded st]) w2) as (answers & H).
      { subst w2. simpl. rewrite Hst, <- app_assoc. simpl.
        apply update_row_middle; auto. }
      { rewrite map_app, max_list_app. simpl.
        eapply ascending_weaken; [|exact Hasc].
        apply Nat.max_lub; [apply Nat.lt_le_incl; exact Hlt
                           | apply Nat.max_lub; [reflexivity | apply Nat.le_0_l]]. }
      cbv zeta in H.
      destruct H as (Hql & Hex & Hreq & Hst' & Hcon & Hhalt & Htie & Hm & Htab & t & Ht).
      rewrite (since_app _ _ _ Ht) in Hql, Hex, Hreq.
      assert (trace (run env (series rest runPendingStatement unhandled) w2)
              = trace w ++ EvQuery (sql_statement st) (Rows rs)
                           :: EvSave (succeeded st) (Succeeded tt) :: t) as Ht'.
      { rewrite Ht. subst w2. simpl. rewrite <- !app_assoc. reflexivity. }
      exists (Rows rs :: answers). rewrite (since_app _ _ _ Ht').
      simpl. fold (query_log t). fold (executed t). fold (creation_requests t).
      rewrite Hql, Hex, Hreq, Hst', Hcon, Hm, Htab, <- app_assoc.
      split_and!; try reflexivity.
      * destruct Hhalt as [[Hlen Hall]|(before & e & -> & Hall)].
        -- left. split; [simpl; rewrite Hlen; reflexivity | constructor; [exact I|exact Hall]].
        -- right. exists (Rows rs :: before), e. split; [reflexivity|].
           constructor; [exact I|exact Hall].
      * constructor; [eauto | exact Htie].
      * eauto.
    + rewrite Hsave. cbn [run unhandled].
      set (w2 := record _ (set_statements _ _)).
      assert (trace w2 = trace w ++ [EvQuery (sql_statement st) (QueryFailed error);
                                     EvSave (failed error st) (Succeeded tt)]) as Ht'.
      { subst w2. simpl. rewrite <- app_assoc. reflexivity. }
      exists [QueryFailed error]. rewrite (since_app _ _ _ Ht').
      subst w2. simpl.
      split_and!; try reflexivity.
      * destruct (map sql_statement rest); reflexivity.
      * rewrite Hst. apply update_row_middle; auto.
      * right. exists [], error. split; [reflexivity|constructor].
      * constructor; [eauto | constructor].
      * eauto.
Qed.

(** X5. When every [save()] succeeds, the table mirrors the answers of the
    database: the statements of the array are executed in order until one
    fails or none is left; the row of each statement that succeeded has
    status "success"; the row of the one that failed has status "failure"
    with the code and the text of the error, and a console block tells of
    it; the rows after it are as they were. *)
Theorem table_mirrors_the_answers env array rows pre w :
  (forall w0 row, save_fault env w0 row = None) ->
  read_rows array w = rows ->
  statements w = pre ++ rows ->
  ascending (max_list (map stmt_id pre)) (map stmt_id rows) ->
  let w' := run env (runPendingStatements array) w in
  exists answers,
    query_log (since w w') = zip (map sql_statement rows) answers /\
    statements w' = pre ++ apply_answers answers rows /\
    console w' = console w ++ omap failure_of answers /\
    ((List.length answers = List.length rows /\ Forall is_rows answers) \/
     exists before e, answers = before ++ [QueryFailed e] /\ Forall is_rows before).
Proof.
  intros Hsave Hrows Hst Hasc w'. subst w'.
  unfold runPendingStatements, forEachSeries. cbn [run]. rewrite Hrows.
  destruct (execution_outcomes env rows Hsave pre w Hst Hasc) as (answers & H).
  cbv zeta in H. destruct H as (Hql & _ & _ & Hst' & Hcon & Hhalt & _).
  exists answers. split_and!; assumption.
Qed.

Lemma table_mirrors_the_answers_witness :
  let env := driver_rejecting [("S2", duplicate_column)] in
  (forall w0 row, save_fault env w0 row = None) /\
  read_rows 0 two_pending = statements two_pending /\
  statements two_pending = [] ++ statements two_pending /\
  ascending (max_list (map stmt_id [])) (map stmt_id (statements two_pending)) /\
  let w' := run env (runPendingStatements 0) two_pending in
  exists answers,
    query_log (since two_pending w')
    = zip (map sql_statement (statements two_pending)) answers /\
    statements w' = [] ++ apply_answers answers (statements two_pending) /\
    console w' = console two_pending ++ omap failure_of answers /\
    ((List.length answers = List.length (statements two_pending) /\
      Forall is_rows answers) \/
     exists before e, answers = before ++ [QueryFailed e] /\ Forall is_rows before).
Proof.
  intros env.
  assert (forall w0 row, save_fault env w0 row = None) as H1 by reflexivity.
  assert (read_rows 0 two_pending = statements two_pending) as H2 by reflexivity.
  assert (statements two_pending = [] ++ statements two_pending) as H3 by reflexivity.
  assert (ascending (max_list (map stmt_id [])) (map stmt_id (statements two_pending)))
    as H4 by (simpl; repeat split; lia).
  split_and!; try assumption.
  exact (table_mirrors_the_answers env 0 (statements two_pending) [] two_pending H1 H2 H3 H4).
Defined.

(* ------------------------------------------------------------------ *)
(** ** Further properties: a call on a healthy database *)

Lemma next_id_snoc ids : next_id (ids ++ [next_id ids]) = S (next_id ids).
Proof.
  unfold next_id. rewrite max_list_app. simpl.
  generalize (max_list ids). intros n. lia.
Qed.

Lemma new_rows_ascending mid bound first sqls :
  bound < first -> ascending bound (map stmt_id (new_rows mid first sqls)).
Proof.
  revert bound first. induction sqls as [|s sqls IH]; intros bound first H; simpl.
  - exact I.
  - split; [exact H|]. apply IH. apply Nat.lt_succ_diag_r.
Qed.

Lemma find_none_existsb (f : MigrationRow -> bool) ms :
  List.find f ms = None -> existsb f ms = false.
Proof.
  induction ms as [|m ms IH]; simpl; [reflexivity|].
  destruct (f m); [intros H; discriminate H | exact IH].
Qed.

Lemma apply_answers_all_rows answers rows :
  List.length answers = List.length rows -> Forall is_rows answers ->
  apply_answers answers rows = map succeeded rows.
Proof.
  revert rows. induction answers as [|a answers IH]; intros [|r rows] Hlen Hall;
    simpl in *; try reflexivity; try discriminate Hlen.
  apply Forall_cons_1 in Hall. destruct Hall as [Ha Hall].
  destruct a; [|contradiction]. simpl. f_equal. apply IH; [lia|exact Hall].
Qed.

(** The creation phase when no creation fails: a row for every statement. *)
Lemma creation_on_healthy env migration loc callback sqls :
  (forall w mid s, statement_fault env w mid s = None) ->
  Forall (fun s => s <> "") sqls ->
  forall acc w,
    heap w !! loc = Some (RowArray acc) ->
    exists w1 t,
      let batch := new_rows (mig_id migration) (next_id (map stmt_id (statements w))) sqls in
      run env (series (map Some sqls) (iterator migration loc) callback) w
      = run env (callback None) w1 /\
      tables w1 = tables w /\ migrations w1 = migrations w /\ console w1 = console w /\
      statements w1 = statements w ++ batch /\
      heap w1 = <[loc := RowArray (acc ++ batch)]> (heap w) /\
      trace w1 = trace w ++ t /\
      executed t = [] /\ creation_requests t = map Some sqls /\ created t = batch /\
      logged None [] t = [].
Proof.
  intros Hfault Hne. induction Hne as [|s sqls Hs Hne IH]; intros acc w Hloc.
  - exists w, []. simpl. rewrite !app_nil_r, insert_id by exact Hloc.
    split_and!; reflexivity.
  - cbn [map]. rewrite iterator_round. cbv zeta.
    assert (normalize (Some s) = Some s) as Hnorm.
    { destruct s as [|c s]; [contradiction|reflexivity]. }
    rewrite Hnorm. unfold answer_statement_create. rewrite Hfault.
    set (row := {| stmt_id := next_id (map stmt_id (statements w));
                   migration_id := mig_id migration; sql_statement := s;
                   status := "pending"; error_code := None; error_info := None |}).
    set (w2 := push loc row _).
    assert (heap w2 = <[loc := RowArray (acc ++ [row])]> (heap w)) as Hheap2.
    { subst w2. simpl. rewrite Hloc. reflexivity. }
    destruct (IH (acc ++ [row]) w2) as (w1 & t & H).
    { rewrite Hheap2. apply lookup_insert_eq. }
    cbv zeta in H.
    destruct H as (Hrun & Htab & Hmig & Hcon & Hst & Hheap & Htr & Hex & Hreq & Hcr & Hlog).
    assert (statements w2 = statements w ++ [row]) as Hst2 by reflexivity.
    assert (next_id (map stmt_id (statements w2))
            = S (next_id (map stmt_id (statements w)))) as Hnext.
    { rewrite Hst2, map_app. apply next_id_snoc. }
    rewrite Hnext in Hst, Hheap, Hcr. rewrite Hst2 in Hst.
    exists w1, (EvStatementCreate (mig_id migration) (Some s) (Succeeded row) :: t).
    simpl. fold row.
    split_and!.
    + exact Hrun.
    + rewrite Htab. reflexivity.
    + rewrite Hmig. reflexivity.
    + rewrite Hcon. reflexivity.
    + rewrite Hst, <- app_assoc. reflexivity.
    + rewrite Hheap, Hheap2, insert_insert_eq, <- app_assoc. reflexivity.
    + rewrite Htr. subst w2. simpl. rewrite <- app_assoc. reflexivity.
    + exact Hex.
    + fold (creation_requests t). rewrite Hreq. reflexivity.
    + fold (created t). rewrite Hcr. reflexivity.
    + exact Hlog.
Qed.

Lemma runOnce_healthy_after_copy env key arr w k sqls :
  Healthy env ->
  normalize key = Some k ->
  find_migration (Some k) (migrations w) = None ->
  match arr with StrArray xs => xs | RowArray _ => [] end = map Some sqls ->
  Forall (fun s => s <> "") sqls ->
  let loc := fresh_loc w in
  let m := {| mig_id := next_id (map mig_id (migrations w)); migration_key := k |} in
  let w' :=
    run env
      (runIfNotExists key
         (Issue (MigrationCreate (normalize key)
                   (fun migration =>
                      createPendingStatements migration loc
                        (fun statements => runPendingStatements statements))
                   (fun _ =>
                      ArrayRead loc (fun arr =>
                        logError [ArgText "Failed to create migration";
                                  ArgStr key; ArgArray arr] Skip)))
                Skip))
      (alloc arr w) in
  migrations w' = migrations w ++ [m] /\
  statements w' = statements w
    ++ map succeeded (new_rows (mig_id m) (next_id (map stmt_id (statements w))) sqls) /\
  executed (since w w') = sqls /\
  creation_requests (since w w') = map Some sqls /\
  console w' = console w /\ tables w' = tables w.
Proof.
  intros [Hf Hmf Hsf Hsv Hq] Hk Hnone Hitems Hne loc m.
  pose proof (fresh_loc_free w) as Hfree. fold loc in Hfree.
  unfold runIfNotExists. cbn [run handler effect].
  set (w0 := alloc arr w).
  unfold answer_find. rewrite Hf.
  change (migrations w0) with (migrations w). rewrite Hk, Hnone.
  set (w1 := record _ w0).
  cbn [run handler effect].
  assert (answer_migration_create env w1 (Some k) = Succeeded m) as Hcreate.
  { unfold answer_migration_create. change (migrations w1) with (migrations w).
    rewrite (find_none_existsb _ _ Hnone), Hmf. reflexivity. }
  rewrite Hcreate.
  set (w2 := record _ (set_migrations _ w1)).
  unfold createPendingStatements, forEachSeries. cbn [run].
  pose proof (fresh_loc_free w2) as Hfree2.
  set (loc2 := fresh_loc w2) in *.
  set (w3 := alloc (RowArray []) w2).
  assert (heap w3 = <[loc2 := RowArray []]> (<[loc := arr]> (heap w))) as Hheap3
    by reflexivity.
  assert (loc2 <> loc) as Hneq.
  { intros Heq. rewrite Heq in Hfree2.
    change (heap w2) with (<[loc := arr]> (heap w)) in Hfree2.
    rewrite lookup_insert_eq in Hfree2. discriminate Hfree2. }
  assert (read_strings loc w3 = map Some sqls) as ->.
  { unfold read_strings. rewrite Hheap3, lookup_insert_ne, lookup_insert_eq by exact Hneq.
    exact Hitems. }
  destruct (creation_on_healthy env m loc2 (fun _ => runPendingStatements loc2) sqls
              Hsf Hne [] w3) as (w4 & tc & H).
  { rewrite Hheap3. apply lookup_insert_eq. }
  cbv zeta in H.
  destruct H as (Hrun & Htab & Hmig & Hcon & Hst & Hheap & Htr & Hex & Hreq & Hcr & _).
  change (statements w3) with (statements w) in Hst, Hheap, Hcr.
  match goal with |- context [run env ?p w3] =>
    replace (run env p w3) with (run env (runPendingStatements loc2) w4)
      by (symmetry; exact Hrun) end.
  unfold runPendingStatements, forEachSeries. cbn [run].
  set (batch := new_rows (mig_id m) (next_id (map stmt_id (statements w))) sqls) in *.
  assert (read_rows loc2 w4 = batch) as ->.
  { unfold read_rows. rewrite Hheap, lookup_insert_eq. reflexivity. }
  destruct (execution_outcomes env batch Hsv (statements w) w4 Hst) as (answers & H).
  { apply new_rows_ascending. unfold next_id. apply Nat.lt_succ_diag_r. }
  cbv zeta in H.
  destruct H as (Hql & Hex' & Hreq' & Hst' & Hcon' & Hhalt & Htie & Hm' & Htab' & te & Hte).
  rewrite (since_app _ _ _ Hte) in Hex', Hreq'.
  assert (Forall is_rows answers) as Hall.
  { eapply Forall_impl; [exact Htie|]. intros a (w5 & sql & <-).
    destruct (Hq w5 sql) as (rows & ->). exact I. }
  assert (List.length answers = List.length batch) as Hlen.
  { destruct Hhalt as [[Hlen _]|(before & e & -> & _)]; [exact Hlen|].
    apply Forall_app in Hall. destruct Hall as [_ Hall].
    apply Forall_cons_1 in Hall. destruct Hall as [[] _]. }
  assert (map sql_statement batch = sqls) as Hsqls.
  { subst batch. generalize (next_id (map stmt_id (statements w))).
    clear. induction sqls as [|s sqls IH]; intros first; simpl; [reflexivity|].
    rewrite IH. reflexivity. }
  assert (trace (run env (series batch runPendingStatement unhandled) w4)
          = trace w ++ EvFind (Some k) (Succeeded None)
                       :: EvMigrationCreate (Some k) (Succeeded m) :: tc ++ te) as Hsince.
  { rewrite Hte, Htr. simpl. rewrite <- !app_assoc. reflexivity. }
  rewrite (since_app _ _ _ Hsince).
  split_and!.
  - rewrite Hm', Hmig. reflexivity.
  - rewrite Hst', (apply_answers_all_rows _ _ Hlen Hall). reflexivity.
  - simpl. fold (executed (tc ++ te)). unfold executed in *. rewrite omap_app, Hex, Hex'.
    simpl. rewrite Hlen, <- (length_map sql_statement), firstn_all. exact Hsqls.
  - simpl. fold (creation_requests (tc ++ te)). unfold creation_requests in *.
    rewrite omap_app, Hreq, Hreq', app_nil_r. reflexivity.
  - rewrite Hcon', Hcon.
    assert (omap failure_of answers = []) as ->.
    { clear - Hall. induction Hall as [|a answers Ha _ IH]; [reflexivity|].
      destruct a; [exact IH|contradiction]. }
    apply app_nil_r.
  - rewrite Htab', Htab. reflexivity.
Qed.

(** X6. On a healthy database, [runOnce] with a non-empty key that has no
    Migration row yet and with non-empty statements inserts the Migration
    row, inserts one Statement row per statement, executes the statements
    in their order, and leaves every row with status "success"; nothing is
    written to the console. *)
Theorem runOnce_on_a_healthy_database env key sqlStatements w k sqls :
  Healthy env ->
  normalize key = Some k ->
  find_migration (Some k) (migrations w) = None ->
  given_statements sqlStatements w = map Some sqls ->
  Forall (fun s => s <> "") sqls ->
  let m := {| mig_id := next_id (map mig_id (migrations w)); migration_key := k |} in
  let w' := run env (runOnce key sqlStatements) w in
  migrations w' = migrations w ++ [m] /\
  statements w' = statements w
    ++ map succeeded (new_rows (mig_id m) (next_id (map stmt_id (statements w))) sqls) /\
  executed (since w w') = sqls /\
  creation_requests (since w w') = map Some sqls /\
  console w' = console w /\ tables w' = tables w.
Proof.
  intros Hh Hk Hnone Hitems Hne m w'. subst w'.
  destruct sqlStatements as [sql|l]; cbn [runOnce run given_statements] in *.
  - apply (runOnce_healthy_after_copy env key (StrArray [sql]) w k sqls); assumption.
  - rewrite <- strings_of_slice in Hitems.
    apply (runOnce_healthy_after_copy env key (slice l w) w k sqls); assumption.
Qed.

Lemma reliable_is_healthy : Healthy reliable.
Proof. constructor; try reflexivity. intros w sql. eexists. reflexivity. Qed.

Lemma runOnce_on_a_healthy_database_witness :
  Healthy reliable /\
  normalize (Some "two_stmts") = Some "two_stmts" /\
  find_migration (Some "two_stmts") (migrations after_add_col) = None /\
  given_statements (OneStatement (Some "ALTER")) after_add_col = map Some ["ALTER"] /\
  Forall (fun s => s <> "") ["ALTER"] /\
  let m := {| mig_id := next_id (map mig_id (migrations after_add_col));
              migration_key := "two_stmts" |} in
  let w' := run reliable (runOnce (Some "two_stmts") (OneStatement (Some "ALTER")))
              after_add_col in
  migrations w' = migrations after_add_col ++ [m] /\
  statements w' = statements after_add_col
    ++ map succeeded
         (new_rows (mig_id m) (next_id (map stmt_id (statements after_add_col))) ["ALTER"]) /\
  executed (since after_add_col w') = ["ALTER"] /\
  creation_requests (since after_add_col w') = map Some ["ALTER"] /\
  console w' = console after_add_col /\ tables w' = tables after_add_col.
Proof.
  assert (Forall (fun s : string => s <> "") ["ALTER"]) as Hne
    by (constructor; [intros H; discriminate H | constructor]).
  split_and!; try reflexivity; try exact reliable_is_healthy; try exact Hne.
  exact (runOnce_on_a_healthy_database reliable (Some "two_stmts")
           (OneStatement (Some "ALTER")) after_add_col "two_stmts" ["ALTER"]
           reliable_is_healthy eq_refl eq_refl eq_refl Hne).
Defined.

(* ------------------------------------------------------------------ *)
(** ** The arguments of [runOnce] *)

(** Overwriting an array that exists and then copying is the same as
    copying and then overwriting: the copy gets the same place. *)
Lemma overwrite_after_alloc l ys arr w :
  is_Some (heap w !! l) ->
  fresh_loc (set_heap (fun h => <[l := StrArray ys]> h) w) = fresh_loc w /\
  set_heap (fun h => <[l := StrArray ys]> h) (alloc arr w)
  = alloc arr (set_heap (fun h => <[l := StrArray ys]> h) w).
Proof.
  intros Hl.
  assert (dom (<[l := StrArray ys]> (heap w)) = dom (heap w)) as Hdom.
  { rewrite dom_insert_L. apply subseteq_union_1_L, singleton_subseteq_l, elem_of_dom.
    exact Hl. }
  assert (l <> fresh (dom (heap w))) as Hne.
  { intros ->. pose proof (fresh_loc_free w) as Hfree. unfold fresh_loc in Hfree.
    rewrite Hfree in Hl. destruct Hl as [x Hx]. discriminate Hx. }
  split.
  - unfold fresh_loc. simpl. rewrite Hdom. reflexivity.
  - unfold alloc, set_heap. simpl. f_equal. rewrite Hdom.
    apply insert_insert_ne. exact Hne.
Qed.

(** C7. Called with the array at [l], [runOnce] leaves that array (and
    every other array of the caller) as it is: it works on a new array
    with the same elements.  Called with a single string it does exactly
    what it does for an array that holds just that string, which is what a
    call given the one-element list does.  The call works on its copy
    only: whatever the caller writes into its array once [runOnce] has
    returned, while the lookup is still pending, the call leaves that
    array as the caller made it and goes on as a call given the elements
    the array had when [runOnce] was called; on a healthy database it
    creates and executes exactly these. *)
Theorem runOnce_input_handling env key xs l w :
  heap w !! l = Some (StrArray xs) ->
  let w' := run env (runOnce key (StatementArray l)) w in
  heap w' !! l = Some (StrArray xs) /\
  (forall a arr, heap w !! a = Some arr -> heap w' !! a = Some arr) /\
  (heap w !! fresh_loc w = None /\ heap w' !! fresh_loc w = Some (StrArray xs)) /\
  (forall sql, xs = [sql] -> run env (runOnce key (OneStatement sql)) w = w') /\
  (forall sql, RunOnce key [sql] w (run env (runOnce key (OneStatement sql)) w)) /\
  (forall ys,
     let c := turn (runOnce key (StatementArray l)) w in
     let w1 := set_heap (fun h => <[l := StrArray ys]> h) (fst c) in
     exists r,
       snd c = [r] /\
       let w2 := run env (handler env r w1) (effect env r w1) in
       heap w2 !! l = Some (StrArray ys) /\
       RunOnce key xs w w2 /\
       (Healthy env ->
        forall k sqls,
          normalize key = Some k ->
          find_migration (Some k) (migrations w) = None ->
          xs = map Some sqls ->
          Forall (fun s => s <> "") sqls ->
          creation_requests (since w w2) = map Some sqls /\
          executed (since w w2) = sqls)).
Proof.
  intros Hl w'.
  destruct (runOnce_anatomy env key (StatementArray l) w) as (_ & Hsub & Hcopy & _).
  fold w' in Hsub, Hcopy.
  assert (forall a arr, heap w !! a = Some arr -> heap w' !! a = Some arr) as Hkeep.
  { intros a arr Ha. eapply lookup_weaken; [exact Ha | exact Hsub]. }
  assert (slice l w = StrArray xs) as Hslice by (unfold slice; rewrite Hl; reflexivity).
  split_and!.
  - apply Hkeep. exact Hl.
  - exact Hkeep.
  - apply fresh_loc_free.
  - rewrite Hcopy. simpl. rewrite Hslice. reflexivity.
  - intros sql ->. subst w'. cbn [runOnce run]. rewrite Hslice. reflexivity.
  - intros sql.
    destruct (runOnce_anatomy env key (OneStatement sql) w) as (_ & _ & _ & H).
    exact H.
  - intros ys c w1. subst c w1. cbn [runOnce runIfNotExists turn fst snd].
    eexists. split; [reflexivity|].
    rewrite Hslice.
    set (wm := set_heap (fun h => <[l := StrArray ys]> h) w).
    destruct (overwrite_after_alloc l ys (StrArray xs) w) as [Hfresh ->];
      [rewrite Hl; eexists; reflexivity|].
    fold wm in Hfresh |- *. rewrite <- Hfresh.
    pose proof (runOnce_after_copy env key (StrArray xs) wm) as Hrun.
    pose proof (runOnce_healthy_after_copy env key (StrArray xs) wm) as Hhealthy.
    cbv zeta in Hrun, Hhealthy. unfold runIfNotExists in Hrun, Hhealthy.
    cbn [run] in Hrun, Hhealthy.
    cbv zeta.
    destruct Hrun as (_ & Hsubm & _ & Hrun).
    split_and!.
    + eapply lookup_weaken; [|exact Hsubm]. subst wm. simpl. apply lookup_insert_eq.
    + destruct Hrun as [e' Hs Hm Hst Hc | m Hs Hf Hm Hst Hc | e' Hs Hf Hm Hst Hc
                       | k' m batch err tc rows' n te c Hk Hf Hmk Hs Hm Hst Hc HC HE].
      * eapply LookupFailed; eassumption.
      * eapply AlreadyRun; eassumption.
      * eapply MigrationRejected; eassumption.
      * eapply Migrated; eassumption.
    + intros Hh k sqls Hk Hnone Hxs Hne.
      destruct (Hhealthy k sqls Hh Hk Hnone Hxs Hne) as (_ & _ & Hex & Hcr & _).
      split; [exact Hcr | exact Hex].
Qed.

Lemma runOnce_input_handling_witness :
  heap one_array !! 0 = Some (StrArray [Some "A"]) /\
  let w' := run reliable (runOnce (Some "k") (StatementArray 0)) one_array in
  heap w' !! 0 = Some (StrArray [Some "A"]) /\
  run reliable (runOnce (Some "k") (OneStatement (Some "A"))) one_array = w' /\
  let c := turn (runOnce (Some "k") (StatementArray 0)) one_array in
  let w1 := set_heap (fun h => <[0 := StrArray [Some "B"; Some "C"]]> h) (fst c) in
  exists r,
    snd c = [r] /\
    executed (since one_array (run reliable (handler reliable r w1) (effect reliable r w1)))
    = ["A"].
Proof.
  split; [reflexivity|].
  destruct (runOnce_input_handling reliable (Some "k") [Some "A"] 0 one_array eq_refl)
    as (H1 & _ & _ & H4 & _ & H6).
  split; [exact H1|]. split; [apply H4; reflexivity|].
  destruct (H6 [Some "B"; Some "C"]) as (r & Hr & _ & _ & Hhealthy).
  exists r. split; [exact Hr|].
  apply (Hhealthy reliable_is_healthy "k" ["A"]); try reflexivity.
  constructor; [intros H; discriminate H | constructor].
Defined.

(** The copy is what protects a call from its caller: an array that is
    overwritten after [runOnce] has returned, while the lookup is still
    pending, does not change what is executed. *)
Example later_mutation_is_not_seen :
  let '(w, pending) := turn (runOnce (Some "k") (StatementArray 0)) one_array in
  let w := set_heap (fun h => <[0 := StrArray [Some "B"; Some "C"]]> h) w in
  option_map (fun c => (executed (trace (fst c)), snd c))
    (steps reliable [0; 0; 0; 0; 0] (w, pending))
  = Some (["A"], []).
Proof. vm_compute. reflexivity. Qed.

(* ------------------------------------------------------------------ *)
(** ** Further properties: an empty list of statements *)

(** X7. [runOnce] with an empty array of statements inserts no Statement
    row and executes nothing, whatever the database answers; but on a
    healthy database it does insert the Migration row of a new non-empty
    key, so the key is used up by the call. *)
Theorem empty_statement_list_uses_up_the_key env key sqlStatements w :
  given_statements sqlStatements w = [] ->
  let w' := run env (runOnce key sqlStatements) w in
  statements w' = statements w /\ executed (since w w') = [] /\
  creation_requests (since w w') = [] /\
  (Healthy env -> forall k, normalize key = Some k ->
     find_migration (Some k) (migrations w) = None ->
     migrations w'
     = migrations w ++ [{| mig_id := next_id (map mig_id (migrations w));
                           migration_key := k |}]).
Proof.
  intros Hitems w'. split_and!.
  1-3: destruct (runOnce_anatomy env key sqlStatements w) as (_ & _ & _ & Hrun);
    fold w' in Hrun; rewrite Hitems in Hrun;
    destruct Hrun as [e' Hs Hm Hst Hc | m' Hs _ Hm Hst Hc | e' Hs Hnone Hm Hst Hc
                     | k m batch err tc rows' n te c Hk Hnone Hmk Hs Hm Hst _ HC HE];
    try (rewrite ?Hs; auto; fail);
    pose proof (cr_order _ _ _ _ _ _ HC) as Hord; rewrite take_nil in Hord;
    apply map_eq_nil in Hord; subst batch;
    pose proof (ex_rows _ _ _ _ _ HE) as Hrows; apply Forall2_nil_inv_l in Hrows;
    subst rows';
    destruct (phase_events_quiet _ _ _ (cr_events _ _ _ _ _ _ HC) (ex_events _ _ _ _ _ HE))
      as (_ & _ & Hreq & _ & Hex & _).
  - rewrite Hst. apply app_nil_r.
  - rewrite Hs. simpl. fold (executed (tc ++ te)).
    rewrite Hex, (ex_order _ _ _ _ _ HE), take_nil. reflexivity.
  - rewrite Hs. simpl. fold (creation_requests (tc ++ te)).
    rewrite Hreq, (cr_requests _ _ _ _ _ _ HC), take_nil. reflexivity.
  - intros Hh k Hk Hnone. subst w'.
    assert (Forall (fun s : string => s <> "") []) as Hne by constructor.
    destruct sqlStatements as [sql|l]; cbn [runOnce run given_statements] in *.
    + discriminate Hitems.
    + rewrite <- strings_of_slice in Hitems.
      apply (runOnce_healthy_after_copy env key (slice l w) w k [] Hh Hk Hnone Hitems Hne).
Qed.

Lemma empty_statement_list_uses_up_the_key_witness :
  given_statements (StatementArray 0) empty_array = [] /\
  let w' := run reliable (runOnce (Some "k") (StatementArray 0)) empty_array in
  statements w' = statements empty_array /\ executed (since empty_array w') = [] /\
  creation_requests (since empty_array w') = [] /\
  (Healthy reliable -> forall k, normalize (Some "k") = Some k ->
     find_migration (Some k) (migrations empty_array) = None ->
     migrations w'
     = migrations empty_array
       ++ [{| mig_id := next_id (map mig_id (migrations empty_array));
              migration_key := k |}]).
Proof.
  split; [reflexivity|].
  apply (empty_statement_list_uses_up_the_key reliable (Some "k") (StatementArray 0)
           empty_array).
  reflexivity.
Defined.

(* ------------------------------------------------------------------ *)
(** ** Further properties: what is written to the console *)

Lemma logged_app key items t1 t2 :
  logged key items (t1 ++ t2) = logged key items t1 ++ logged key items t2.
Proof. apply omap_app. Qed.

(** The console during the execution phase. *)
Lemma execution_console env key items rows :
  forall w,
    let w' := run env (series rows runPendingStatement unhandled) w in
    exists t, trace w' = trace w ++ t /\
              console w' = console w ++ logged key items t.
Proof.
  induction rows as [|st rest IH]; intros w.
  - exists []. simpl. rewrite !app_nil_r. split; reflexivity.
  - cbv zeta. rewrite runPendingStatement_round. cbv zeta.
    destruct (query_result env w (sql_statement st)) as [rs|error].
    + destruct (save_fault env _ (succeeded st)) as [e'|].
      * exists [EvQuery (sql_statement st) (Rows rs); EvSave (succeeded st) (Failed e')].
        simpl. rewrite <- app_assoc, app_nil_r. split; reflexivity.
      * set (w2 := record _ (set_statements _ _)).
        destruct (IH w2) as (t & Ht & Hc).
        exists (EvQuery (sql_statement st) (Rows rs)
                :: EvSave (succeeded st) (Succeeded tt) :: t).
        rewrite Ht, Hc. subst w2. simpl. rewrite <- !app_assoc. split; reflexivity.
    + destruct (save_fault env _ (failed error st)) as [e'|].
      * exists [EvQuery (sql_statement st) (QueryFailed error);
                EvSave (failed error st) (Failed e')].
        simpl. rewrite <- app_assoc. split; reflexivity.
      * exists [EvQuery (sql_statement st) (QueryFailed error);
                EvSave (failed error st) (Succeeded tt)].
        simpl. rewrite <- app_assoc. split; reflexivity.
Qed.

(** The console during the creation phase and the execution phase that
    its final callback starts. *)
Lemma creation_console env key items migration loc sqls :
  forall w,
    let w' := run env (series sqls (iterator migration loc)
                         (fun _ => runPendingStatements loc)) w in
    exists t, trace w' = trace w ++ t /\
              console w' = console w ++ logged key items t.
Proof.
  induction sqls as [|sql sqls IH]; intros w; cbv zeta.
  - cbn [series]. unfold runPendingStatements, forEachSeries. cbn [run].
    apply (execution_console env key items).
  - rewrite iterator_round. cbv zeta.
    destruct (answer_statement_create env w (mig_id migration) (normalize sql)) as [s|e].
    + set (w2 := push loc s _).
      destruct (IH w2) as (t & Ht & Hc).
      exists (EvStatementCreate (mig_id migration) (normalize sql) (Succeeded s) :: t).
      rewrite Ht, Hc. subst w2. simpl. rewrite <- !app_assoc. split; reflexivity.
    + set (w2 := record _ w).
      unfold runPendingStatements, forEachSeries. cbn [run].
      destruct (execution_console env key items (read_rows loc w2) w2) as (t & Ht & Hc).
      exists (EvStatementCreate (mig_id migration) (normalize sql) (Failed e) :: t).
      rewrite Ht, Hc. subst w2. simpl. rewrite <- !app_assoc. split; reflexivity.
Qed.

Lemma runOnce_console_after_copy env key arr w :
  let loc := fresh_loc w in
  let items := match arr with StrArray xs => xs | RowArray _ => [] end in
  let w' :=
    run env
      (runIfNotExists key
         (Issue (MigrationCreate (normalize key)
                   (fun migration =>
                      createPendingStatements migration loc
                        (fun statements => runPendingStatements statements))
                   (fun _ =>
                      ArrayRead loc (fun arr =>
                        logError [ArgText "Failed to create migration";
                                  ArgStr key; ArgArray arr] Skip)))
                Skip))
      (alloc arr w) in
  console w' = console w ++ logged key items (since w w').
Proof.
  intros loc items.
  unfold runIfNotExists. cbn [run handler effect].
  set (w0 := alloc arr w).
  destruct (answer_find env w0 (normalize key)) as [[m|]|e].
  - cbn [run]. rewrite (since_app w _ [EvFind (normalize key) (Succeeded (Some m))])
      by reflexivity.
    simpl. rewrite app_nil_r. reflexivity.
  - set (w1 := record _ w0). cbn [run handler effect].
    destruct (answer_migration_create env w1 (normalize key)) as [m|e].
    + set (w2 := record _ (set_migrations _ w1)).
      unfold createPendingStatements, forEachSeries. cbn [run].
      set (w3 := alloc (RowArray []) w2).
      destruct (creation_console env key items m (fresh_loc w2) (read_strings loc w3) w3)
        as (t & Ht & Hc).
      cbv zeta in Ht, Hc.
      match goal with |- context [run env ?p w3] =>
        set (w' := run env p w3) in * end.
      rewrite (since_app w w'
                 (EvFind (normalize key) (Succeeded None)
                  :: EvMigrationCreate (normalize key) (Succeeded m) :: t)).
      * rewrite Hc. reflexivity.
      * rewrite Ht. simpl. rewrite <- !app_assoc. reflexivity.
    + cbn [run]. unfold logError. cbn [run].
      assert (read_strings loc (record (EvMigrationCreate (normalize key) (Failed e)) w1) = items)
        as ->.
      { unfold read_strings. simpl. fold loc. rewrite lookup_insert_eq. reflexivity. }
      rewrite (since_app w _ [EvFind (normalize key) (Succeeded None);
                              EvMigrationCreate (normalize key) (Failed e)]).
      * reflexivity.
      * simpl. rewrite <- app_assoc. reflexivity.
  - unfold unhandled. cbn [run].
    rewrite (since_app w _ [EvFind (normalize key) (Failed e)]) by reflexivity.
    simpl. rewrite app_nil_r. reflexivity.
Qed.

(** X8. What a [runOnce] call writes to the console is told by the
    requests it made: one block for the Migration row that could not be
    created, one block for the SQL statement that failed, in that order,
    and nothing else; a failed lookup, a failed creation of a Statement row
    and a failed [save()] leave no trace on the console. *)
Theorem console_tells_of_failures env key sqlStatements w :
  let w' := run env (runOnce key sqlStatements) w in
  console w'
  = console w ++ logged key (given_statements sqlStatements w) (since w w').
Proof.
  destruct sqlStatements as [sql|l]; cbn [runOnce run given_statements].
  - apply (runOnce_console_after_copy env key (StrArray [sql]) w).
  - rewrite <- strings_of_slice. apply (runOnce_console_after_copy env key (slice l w) w).
Qed.

(* ------------------------------------------------------------------ *)
(** ** Further properties: [runAllOnce] *)

Lemma turn_and_then p q w :
  turn (and_then p q) w
  = (fst (turn q (fst (turn p w))), snd (turn p w) ++ snd (turn q (fst (turn p w)))).
Proof.
  revert w. induction p as [ | args rest IH | xs k IH | l k IH | l k IH | k IH
                           | l r rest IH | l k IH | r rest IH ]; intros w; cbn [and_then turn];
    try (rewrite IH; reflexivity).
  - cbn [fst snd app]. destruct (turn q w). reflexivity.
  - rewrite IH. destruct (turn rest w) as [w1 l1]. reflexivity.
Qed.

Lemma turn_runOnce key sqlStatements w :
  exists success error,
    turn (runOnce key sqlStatements) w
    = (alloc (working_copy sqlStatements w) w,
       [MigrationFind (normalize key) success error]).
Proof. destruct sqlStatements; eexists _, _; reflexivity. Qed.

(** X9. [runAllOnce] does not wait for anything: when it returns, the
    lookup of every migration of the list is pending, in the order of the
    list and with the normalized key, and nothing has happened yet to the
    database or to the console; the arrays of the caller are untouched. *)
Theorem runAllOnce_issues_every_lookup migrationList w :
  let c := turn (runAllOnce migrationList) w in
  map lookup_key (snd c) = map (fun m => Some (normalize (fst m))) migrationList /\
  migrations (fst c) = migrations w /\ statements (fst c) = statements w /\
  tables (fst c) = tables w /\ console (fst c) = console w /\
  trace (fst c) = trace w /\ heap w ⊆ heap (fst c).
Proof.
  revert w. induction migrationList as [|[key sqlStatements] ms IH]; intros w.
  - simpl. split_and!; reflexivity.
  - cbv zeta. cbn [runAllOnce]. rewrite turn_and_then.
    destruct (turn_runOnce key sqlStatements w) as (success & error & ->).
    cbn [fst snd].
    destruct (IH (alloc (working_copy sqlStatements w) w))
      as (Hkeys & Hm & Hst & Htab & Hc & Htr & Hheap).
    cbv zeta in Hkeys, Hm, Hst, Htab, Hc, Htr, Hheap.
    split_and!.
    + simpl. rewrite Hkeys. reflexivity.
    + rewrite Hm. reflexivity.
    + rewrite Hst. reflexivity.
    + rewrite Htab. reflexivity.
    + rewrite Hc. reflexivity.
    + rewrite Htr. reflexivity.
    + etransitivity; [|exact Hheap].
      apply insert_subseteq. apply (fresh_loc_free w).
Qed.

(* ------------------------------------------------------------------ *)
(** ** Further properties: two calls that overlap *)

Lemma step_head env r rest w :
  step env 0 (w, r :: rest)
  = Some (fst (turn (handler env r w) (effect env r w)),
          rest ++ snd (turn (handler env r w) (effect env r w))).
Proof. simpl. destruct (turn (handler env r w) (effect env r w)). reflexivity. Qed.

(** The turn that follows the creation of the Migration row touches
    nothing but the arrays of the call, and leaves at most one request. *)
Lemma turn_createPendingStatements migration loc w :
  let c := turn (createPendingStatements migration loc
                   (fun statements => runPendingStatements statements)) w in
  migrations (fst c) = migrations w /\ statements (fst c) = statements w /\
  console (fst c) = console w /\ trace (fst c) = trace w /\
  List.length (snd c) <= 1.
Proof.
  unfold createPendingStatements, forEachSeries. cbn [turn].
  destruct (read_strings loc (alloc (RowArray []) w)) as [|sql sqls].
  - cbn [series]. unfold runPendingStatements, forEachSeries. cbn [turn].
    destruct (read_rows _ _) as [|r rows]; simpl; split_and!; auto.
  - simpl. split_and!; auto.
Qed.

Lemma existsb_after_insert k ms m :
  migration_key m = k ->
  existsb (fun x => String.eqb (migration_key x) k) (ms ++ [m]) = true.
Proof.
  intros Hk. rewrite existsb_app. simpl. rewrite Hk, String.eqb_refl.
  apply orb_true_r.
Qed.

(** X10. Two calls for the same new key that overlap, as [runAllOnce]
    makes them when a key occurs twice in its list: both lookups are
    answered before either Migration row is asked for, so both calls go on
    to create the row; the first creation succeeds, the second is refused
    by the unique constraint and written to the console, and the second
    call is over.  One Migration row has been inserted, and at most one
    request is pending. *)
Theorem overlapping_calls_insert_one_row env key statements1 statements2 w k :
  (forall w0 key0, find_fault env w0 key0 = None) ->
  (forall w0 k0, migration_fault env w0 k0 = None) ->
  normalize key = Some k ->
  find_migration (Some k) (migrations w) = None ->
  let m := {| mig_id := next_id (map mig_id (migrations w)); migration_key := k |} in
  exists w' pending,
    steps env [0; 0; 0; 0]
      (turn (runAllOnce [(key, statements1); (key, statements2)]) w)
    = Some (w', pending) /\
    migrations w' = migrations w ++ [m] /\
    created_migrations (since w w') = [m] /\
    keys_used (since w w') = [Some k; Some k; Some k; Some k] /\
    In (EvMigrationCreate (Some k) (Failed (UniqueViolation "migration_key")))
       (since w w') /\
    (exists items, console w' = console w ++ [rejection_block key items]) /\
    statements w' = statements w /\
    List.length pending <= 1.
Proof.
  intros Hf Hmf Hk Hnone m.
  assert (exists w2 loc1 loc2,
            turn (runAllOnce [(key, statements1); (key, statements2)]) w
            = (w2,
               [MigrationFind (normalize key)
                  (fun migration =>
                     match migration with
                     | None =>
                         Issue (MigrationCreate (normalize key)
                           (fun migration =>
                              createPendingStatements migration loc1
                                (fun statements => runPendingStatements statements))
                           (fun _ =>
                              ArrayRead loc1 (fun arr =>
                                logError [ArgText "Failed to create migration";
                                          ArgStr key; ArgArray arr] Skip))) Skip
                     | Some _ => Skip
                     end) unhandled;
                MigrationFind (normalize key)
                  (fun migration =>
                     match migration with
                     | None =>
                         Issue (MigrationCreate (normalize key)
                           (fun migration =>
                              createPendingStatements migration loc2
                                (fun statements => runPendingStatements statements))
                           (fun _ =>
                              ArrayRead loc2 (fun arr =>
                                logError [ArgText "Failed to create migration";
                                          ArgStr key; ArgArray arr] Skip))) Skip
                     | Some _ => Skip
                     end) unhandled]) /\
            migrations w2 = migrations w /\ statements w2 = statements w /\
            console w2 = console w /\ trace w2 = trace w)
    as (w2 & loc1 & loc2 & -> & Hm2 & Hst2 & Hc2 & Ht2).
  { destruct statements1, statements2; eexists _, _, _; split_and!; reflexivity. }
  assert (forall w0, migrations w0 = migrations w ->
                     answer_find env w0 (Some k) = Succeeded None) as Hfind.
  { intros w0 Hw0. unfold answer_find. rewrite Hf, Hw0, Hnone. reflexivity. }
  rewrite Hk. cbn [steps]. rewrite step_head. cbn [handler effect].
  rewrite (Hfind w2 Hm2). cbn [turn fst snd app].
  set (w3 := record _ w2).
  rewrite step_head. cbn [handler effect].
  rewrite (Hfind w3 Hm2). cbn [turn fst snd app].
  set (w4 := record _ w3).
  rewrite step_head. cbn [handler effect].
  assert (answer_migration_create env w4 (Some k) = Succeeded m) as ->.
  { unfold answer_migration_create. change (migrations w4) with (migrations w2).
    rewrite Hm2, (find_none_existsb _ _ Hnone), Hmf. reflexivity. }
  set (w5 := record _ (set_migrations _ w4)).
  destruct (turn_createPendingStatements m loc1 w5) as (Hm6 & Hst6 & Hc6 & Ht6 & Hlen).
  cbv zeta in Hm6, Hst6, Hc6, Ht6, Hlen.
  destruct (turn (createPendingStatements m loc1
                    (fun statements => runPendingStatements statements)) w5)
    as [w6 l6] eqn:Hturn.
  cbn [fst snd app] in *.
  assert (migrations w6 = migrations w ++ [m]) as Hmig6.
  { rewrite Hm6. subst w5. simpl. rewrite Hm2. reflexivity. }
  rewrite step_head. cbn [handler effect].
  assert (answer_migration_create env w6 (Some k)
          = Failed (UniqueViolation "migration_key")) as ->.
  { unfold answer_migration_create. rewrite Hmig6, existsb_after_insert by reflexivity.
    reflexivity. }
  unfold logError. cbn [turn fst snd app].
  eexists _, _. split; [reflexivity|].
  match goal with |- migrations ?wf = _ /\ _ => set (w7 := wf) end.
  assert (trace w7
          = trace w ++ [EvFind (Some k) (Succeeded None); EvFind (Some k) (Succeeded None);
                        EvMigrationCreate (Some k) (Succeeded m);
                        EvMigrationCreate (Some k)
                          (Failed (UniqueViolation "migration_key"))]) as Htrace.
  { subst w7. simpl. rewrite Ht6. subst w5 w4 w3. simpl.
    rewrite Ht2, <- !app_assoc. reflexivity. }
  rewrite (since_app _ _ _ Htrace).
  split_and!.
  - subst w7. simpl. exact Hmig6.
  - reflexivity.
  - reflexivity.
  - right. right. right. left. reflexivity.
  - exists (read_strings loc2
              (record (EvMigrationCreate (Some k)
                         (Failed (UniqueViolation "migration_key"))) w6)).
    subst w7. simpl. rewrite Hc6. subst w5 w4 w3. simpl. rewrite Hc2. reflexivity.
  - subst w7. simpl. rewrite Hst6. subst w5 w4 w3. simpl. exact Hst2.
  - rewrite app_nil_r. exact Hlen.
Qed.

(** Witness of X10: two calls for the new key "k" on an empty database. *)
Lemma overlapping_calls_insert_one_row_witness :
  exists w' pending,
    steps reliable [0; 0; 0; 0]
      (turn (runAllOnce [(Some "k", OneStatement (Some "A"));
                         (Some "k", OneStatement (Some "B"))]) empty_world)
    = Some (w', pending) /\
    migrations w' = [{| mig_id := 1; migration_key := "k" |}] /\
    List.length pending <= 1.
Proof.
  destruct (overlapping_calls_insert_one_row reliable (Some "k")
              (OneStatement (Some "A")) (OneStatement (Some "B")) empty_world "k")
    as (w' & pending & Hsteps & Hm & _ & _ & _ & _ & _ & Hlen).
  - reflexivity.
  - reflexivity.
  - reflexivity.
  - reflexivity.
  - exists w', pending. split_and!; [exact Hsteps | exact Hm | exact Hlen].
Defined.

(* ------------------------------------------------------------------ *)
(** ** Further properties: the foreign key that [bootstrap] adds *)

(** X12. Once both relations are synchronised, [bootstrap] asks the
    database which constraints the relation of the statements has, and
    adds the foreign key exactly when the answer is null or has no row.
    Whatever the answers to these two statements, nothing is written to the
    console: a failed query or a failed ALTER TABLE goes unreported.  No
    row of either relation is read or written. *)
Theorem bootstrap_adds_the_missing_constraint env w :
  let w1 := record (EvSync "Migrations" (Succeeded tt))
              (set_tables (create_if_absent "Migrations") w) in
  let w2 := record (EvSync "MigrationStatements" (Succeeded tt))
              (set_tables (create_if_absent "MigrationStatements") w1) in
  let w' := run env (bootstrap None) w in
  sync_fault env w "Migrations" = None ->
  sync_fault env w1 "MigrationStatements" = None ->
  executed (since w w')
  = constraint_query ::
    match query_result env w2 constraint_query with
    | Rows rows => if no_rows rows then [constraint_statement] else []
    | QueryFailed _ => []
    end /\
  console w' = console w /\
  tables w' = tables w2 /\
  migrations w' = migrations w /\ statements w' = statements w /\
  keys_used (since w w') = [] /\ saved (since w w') = [] /\
  creation_requests (since w w') = [].
Proof.
  intros w1 w2 w' H1 H2. subst w'. unfold bootstrap.
  cbn [run handler effect]. unfold answer_sync. rewrite H1.
  cbn [run handler effect]. fold w1. unfold answer_sync. rewrite H2.
  cbn [run handler effect executeSql]. fold w1. fold w2.
  destruct (query_result env w2 constraint_query) as [rows|e] eqn:Hq.
  - destruct (no_rows rows).
    + cbn [run]. unfold executeSql. cbn [handler effect].
      match goal with
      | |- context [query_result env ?x constraint_statement] =>
          set (res := query_result env x constraint_statement)
      end.
      assert (since w (run env
                         match res with
                         | Rows rows0 => unhandled rows0
                         | QueryFailed e => unhandled e
                         end
                         (record (EvQuery constraint_statement res)
                            (record (EvQuery constraint_query (Rows rows)) w2)))
              = [EvSync "Migrations" (Succeeded tt);
                 EvSync "MigrationStatements" (Succeeded tt);
                 EvQuery constraint_query (Rows rows);
                 EvQuery constraint_statement res]) as Hs.
      { apply since_app. destruct res; simpl; rewrite <- !app_assoc; reflexivity. }
      rewrite Hs. destruct res; split_and!; reflexivity.
    + cbn [run].
      assert (since w (record (EvQuery constraint_query (Rows rows)) w2)
              = [EvSync "Migrations" (Succeeded tt);
                 EvSync "MigrationStatements" (Succeeded tt);
                 EvQuery constraint_query (Rows rows)]) as Hs.
      { apply since_app. simpl. rewrite <- !app_assoc. reflexivity. }
      rewrite Hs. split_and!; reflexivity.
  - cbn [run unhandled].
    assert (since w (record (EvQuery constraint_query (QueryFailed e)) w2)
            = [EvSync "Migrations" (Succeeded tt);
               EvSync "MigrationStatements" (Succeeded tt);
               EvQuery constraint_query (QueryFailed e)]) as Hs.
    { apply since_app. simpl. rewrite <- !app_assoc. reflexivity. }
    rewrite Hs. split_and!; reflexivity.
Qed.

(** Witness of X12: on an empty database whose catalogue shows no
    constraint, [bootstrap] adds the foreign key. *)
Lemma bootstrap_adds_the_missing_constraint_witness :
  executed (since empty_world (run reliable (bootstrap None) empty_world))
  = [constraint_query; constraint_statement].
Proof.
  apply (bootstrap_adds_the_missing_constraint reliable empty_world); reflexivity.
Defined.

(** Witness of X11: the array [["A", "", "B"]] on an empty database. *)
Lemma created_rows_are_executed_after_a_failure_witness :
  exists later,
    executed (since three_statements
                (run reliable (runOnce (Some "k") (StatementArray 0)) three_statements))
    = "A" :: later.
Proof.
  apply (created_rows_are_executed_after_a_failure reliable (Some "k") (StatementArray 0)
           three_statements 1 None (NotNullViolation "sql_statement"))
    with (r := {| stmt_id := 1; migration_id := 1; sql_statement := "A";
                  status := "pending"; error_code := None; error_info := None |})
         (rest := []).
  - vm_compute. right. right. right. left. reflexivity.
  - vm_compute. reflexivity.
Defined.

(* ------------------------------------------------------------------ *)
(** ** Further properties: [createPendingStatements] and its callback *)

(** X13. [createPendingStatements] calls its callback once, whether or not
    a row could not be created, and hands it a new array that holds exactly
    the rows it inserted.  These rows were appended to the table in the
    order of the statements, nothing was written to the console, and the
    array of statements it was given is as it was. *)
Theorem createPendingStatements_hands_over_the_rows env migration sqlStatements callback w :
  let loc := fresh_loc w in
  exists batch err t w1,
    run env (createPendingStatements migration sqlStatements callback) w
    = run env (callback loc) w1 /\
    read_rows loc w1 = batch /\
    statements w1 = statements w ++ batch /\
    trace w1 = trace w ++ t /\
    console w1 = console w /\ migrations w1 = migrations w /\ tables w1 = tables w /\
    read_strings sqlStatements w1 = read_strings sqlStatements w /\
    Creation (mig_id migration) (statements w) (read_strings sqlStatements w) batch err t.
Proof.
  intros loc. unfold createPendingStatements, forEachSeries. cbn [run]. fold loc.
  pose proof (fresh_loc_free w) as Hfree. fold loc in Hfree.
  set (w0 := alloc (RowArray []) w).
  assert (heap w0 = <[loc := RowArray []]> (heap w)) as Hheap0 by reflexivity.
  assert (read_strings sqlStatements w0 = read_strings sqlStatements w) as Hitems.
  { unfold read_strings. rewrite Hheap0.
    destruct (decide (sqlStatements = loc)) as [->|Hne].
    - rewrite lookup_insert_eq, Hfree. reflexivity.
    - rewrite lookup_insert_ne by (intros H; apply Hne; symmetry; exact H). reflexivity. }
  rewrite Hitems.
  destruct (creation_phase env migration loc (fun _ => callback loc)
              (read_strings sqlStatements w) [] w0)
    as (batch & err & t & w1 & Hrun & Htab & Hmig & Hcon & Hst & Hheap & Htr & HC).
  { rewrite Hheap0. apply lookup_insert_eq. }
  exists batch, err, t, w1. split_and!; try assumption.
  - unfold read_rows. rewrite Hheap, lookup_insert_eq. reflexivity.
  - unfold read_strings. rewrite Hheap, Hheap0.
    destruct (decide (sqlStatements = loc)) as [->|Hne].
    + rewrite lookup_insert_eq, Hfree. reflexivity.
    + rewrite !lookup_insert_ne by (intros H; apply Hne; symmetry; exact H). reflexivity.
Qed.

(* ------------------------------------------------------------------ *)
(** ** Further properties: a row that cannot be saved *)

(** X14. When the outcome of a statement cannot be saved, the run of the
    statements ends there without a word: the statement has been sent to
    the database, the table is as it was (so a row that was "pending"
    still says so), no later statement is sent, and the console shows at
    most the failure of the statement itself. *)
Theorem failed_save_ends_the_run env array statement rest w e :
  read_rows array w = statement :: rest ->
  (forall w0, save_fault env w0
                (row_after (query_result env w (sql_statement statement)) statement)
              = Some e) ->
  let w' := run env (runPendingStatements array) w in
  let res := query_result env w (sql_statement statement) in
  since w w' = [EvQuery (sql_statement statement) res;
                EvSave (row_after res statement) (Failed e)] /\
  statements w' = statements w /\
  console w' = console w ++ match failure_of res with Some b => [b] | None => [] end.
Proof.
  intros Hrows Hsave w' res. subst w'.
  unfold runPendingStatements, forEachSeries. cbn [run]. rewrite Hrows.
  rewrite runPendingStatement_round. cbv zeta. fold res in Hsave |- *.
  destruct res as [rows|error]; cbn [row_after failure_of] in Hsave |- *; rewrite Hsave.
  - split_and!.
    + apply since_app. simpl. rewrite <- app_assoc. reflexivity.
    + reflexivity.
    + simpl. symmetry. apply app_nil_r.
  - split_and!.
    + apply since_app. simpl. rewrite <- app_assoc. reflexivity.
    + reflexivity.
    + reflexivity.
Qed.

(** Witness of X14: the two pending rows on a database that saves nothing. *)
Lemma failed_save_ends_the_run_witness :
  executed (since two_pending
              (run driver_without_save (runPendingStatements 0) two_pending))
  = ["S1"] /\
  statements (run driver_without_save (runPendingStatements 0) two_pending)
  = statements two_pending.
Proof.
  destruct (failed_save_ends_the_run driver_without_save 0
              {| stmt_id := 1; migration_id := 1; sql_statement := "S1";
                 status := "pending"; error_code := None; error_info := None |}
              [{| stmt_id := 2; migration_id := 1; sql_statement := "S2";
                  status := "pending"; error_code := None; error_info := None |}]
              two_pending connection_lost) as (Hs & Hst & _).
  - reflexivity.
  - reflexivity.
  - split; [rewrite Hs; reflexivity | exact Hst].
Defined.
